(** * Indented TypeScript: the curly-bracket remover of leo/plugins/indented_typescript.py

    A shallow embedding of the [IndentedTypeScript] class: the line-level
    bracket check, the indentation check, the three passes of
    [remove_brackets], the per-node driver and the batch handler
    [after_read], followed by the properties of the specification that
    were checked against them.

    Conventions of the embedding.
    - A Python [str] is a [string]; its characters are the code points
      0..255.  [isspace] is Python's notion of white space on that range
      (the one shared by [str.strip], [str.isspace] and the pattern [\s]).
    - Indices ([enumerate], [m.start()]) are [nat]; the signed counters
      ([indent], [curlies], [parens], [level]) are [Z].
    - A function that may raise returns a [res]: [Ok v] or [Raise e].
    - A [dict] is a [gmap]; a [list] is a [list]. *)

From Stdlib Require Import ZArith Ascii String Lia.
From stdpp Require Import gmap strings list sorting.

Local Open Scope string_scope.
Local Open Scope nat_scope.
Local Open Scope list_scope.
Local Open Scope stdpp_scope.

(** ** Exceptions and results *)

(** A bracket token: [(curly, line_number, column_number)]. *)
Abbreviation token := (string * nat * nat)%type.


(** One constructor per [raise] or [assert] of the source (and per
    implicit lookup failure), carrying the values the message formats. *)
Inductive exn :=
| TooManyCurlies (i : nat) (line : string)
| InvalidCurlies (i : nat) (line : string)
| BadIndentation (curlies2 : Z) (line : string)
| StackUnderflow
| UnmatchedBrackets
| NoMatchingInfo (t : token)
| AssertionFailed (what : string)
| MissingKey (t : token)
| BadIndex (i : nat).


Inductive res (A : Type) :=
| Ok (a : A)
| Raise (e : exn).
Arguments Ok {A} a.
Arguments Raise {A} e.

Definition bind {A B} (r : res A) (k : A -> res B) : res B :=
  match r with
  | Ok a => k a
  | Raise e => Raise e
  end.

Notation "'let*' x ':=' r 'in' k" := (bind r (fun x => k))
  (at level 10, x name, r at level 100, k at level 200).
Notation "'do' r 'then' k" := (bind r (fun _ => k))
  (at level 10, r at level 100, k at level 200).

(** [for i, x in enumerate(xs)] threading a state, stopped by the first
    exception; [i] is the index of the head of [xs]. *)
Fixpoint enum_for {X St : Type} (body : nat -> X -> St -> res St)
    (i : nat) (xs : list X) (s : St) : res St :=
  match xs with
  | [] => Ok s
  | x :: xs' => let* s' := body i x s in enum_for body (S i) xs' s'
  end.

(** ** Python strings *)

Module Py.

Definition LF : ascii := "010"%char.

Definition isspace (c : ascii) : bool :=
  let n := nat_of_ascii c in
  ((9 <=? n) && (n <=? 13)) || ((28 <=? n) && (n <=? 32))
  || (n =? 133) || (n =? 160).

Definition truthy (s : string) : bool :=
  match s with EmptyString => false | String _ _ => true end.

Fixpoint lstrip (s : string) : string :=
  match s with
  | EmptyString => EmptyString
  | String c r => if isspace c then lstrip r else s
  end.

Fixpoint rstrip (s : string) : string :=
  match s with
  | EmptyString => EmptyString
  | String c r =>
      let r' := rstrip r in
      if isspace c && negb (truthy r') then EmptyString else String c r'
  end.

Definition strip (s : string) : string := rstrip (lstrip s).

(** [s.count(c)] for a one-character [c]. *)
Fixpoint count (c : ascii) (s : string) : nat :=
  match s with
  | EmptyString => 0
  | String d r => (if Ascii.eqb d c then 1 else 0) + count c r
  end.

(** [s.find(c)]: the first index of [c], or [-1]. *)
Fixpoint find (c : ascii) (s : string) : Z :=
  match s with
  | EmptyString => (-1)%Z
  | String d r =>
      if Ascii.eqb d c then 0%Z
      else let k := find c r in if (k <? 0)%Z then (-1)%Z else (k + 1)%Z
  end.

(** [c in s]. *)
Fixpoint contains (c : ascii) (s : string) : bool :=
  match s with
  | EmptyString => false
  | String d r => Ascii.eqb d c || contains c r
  end.

(** [s[:n]] and [s[n:]] for [n >= 0]. *)
Fixpoint slice_to (n : nat) (s : string) : string :=
  match n, s with
  | S k, String c r => String c (slice_to k r)
  | _, _ => EmptyString
  end.

Fixpoint slice_from (n : nat) (s : string) : string :=
  match n, s with
  | S k, String c r => slice_from k r
  | _, _ => s
  end.

(** [c * n]. *)
Fixpoint repeat_char (c : ascii) (n : nat) : string :=
  match n with
  | 0 => EmptyString
  | S k => String c (repeat_char c k)
  end.

(** [''.join(lines)]. *)
Fixpoint join (ls : list string) : string :=
  match ls with
  | [] => EmptyString
  | l :: r => l +:+ join r
  end.

End Py.

(** ** The regular expressions of the plugin

    Each pattern is embedded as the backtracking search the [re] module
    performs for it, specialised to the pattern. *)

Module Re.

Import Py.

(** [re.finditer(pat, s)] for a pattern that matches exactly one
    character, those satisfying [p]: the list of [(m.group(0), m.start())],
    where [i] is the index of the head of [s]. *)
Fixpoint finditer_from (p : ascii -> bool) (i : nat) (s : string)
    : list (string * nat) :=
  match s with
  | EmptyString => []
  | String c r =>
      if p c then (String c EmptyString, i) :: finditer_from p (S i) r
      else finditer_from p (S i) r
  end.

Definition finditer (p : ascii -> bool) (s : string) : list (string * nat) :=
  finditer_from p 0 s.

(** [curly_pat = r'{|}'], [curly_pat1 = r'{'], [curly_pat2 = r'}'] (also
    [close_curly_pat]), [paren_pat1 = r'\('], [paren_pat2 = r'\)']. *)
Definition curly_pat (c : ascii) : bool := Ascii.eqb c "{" || Ascii.eqb c "}".
Definition curly_pat1 (c : ascii) : bool := Ascii.eqb c "{".
Definition curly_pat2 (c : ascii) : bool := Ascii.eqb c "}".
Definition paren_pat1 (c : ascii) : bool := Ascii.eqb c "(".
Definition paren_pat2 (c : ascii) : bool := Ascii.eqb c ")".

(** [ws_pat = ^[c]*] with [c] the indentation character: [m.group(0)] is
    the leading run of [c]; the match never fails. *)
Fixpoint ws_pat_group0 (c : ascii) (s : string) : string :=
  match s with
  | EmptyString => EmptyString
  | String d r => if Ascii.eqb d c then String d (ws_pat_group0 c r) else EmptyString
  end.

(** The greedy [\s*] with nothing after it: the length of the longest
    white-space prefix. *)
Fixpoint space_run (s : string) : nat :=
  match s with
  | EmptyString => 0
  | String c r => if isspace c then S (space_run r) else 0
  end.

(** [.*?}]: the number of characters consumed by the lazy scan up to and
    including the first close; [.] does not match a line feed. *)
Fixpoint lazy_to_close (s : string) : option nat :=
  match s with
  | EmptyString => None
  | String c r =>
      if Ascii.eqb c "}" then Some 1
      else if Ascii.eqb c LF then None
      else S <$> lazy_to_close r
  end.

(** [matched_bracket_pat = r'{.*?}\s*'] tried at the head of [s]: the
    length of the match. *)
Definition matched_bracket_pat (s : string) : option nat :=
  match s with
  | EmptyString => None
  | String c r =>
      if Ascii.eqb c "{" then
        match lazy_to_close r with
        | Some k => Some (1 + k + space_run (slice_from k r))
        | None => None
        end
      else None
  end.

(** [re.sub(matched_bracket_pat, '', s)]: where the pattern matches, the
    match (never empty) is dropped and the scan resumes after it;
    elsewhere the character is copied.  [skip] counts the characters of
    the current match that are still to be dropped. *)
Fixpoint sub_matched_from (skip : nat) (s : string) : string :=
  match s with
  | EmptyString => EmptyString
  | String c r =>
      match skip with
      | S k => sub_matched_from k r
      | 0 =>
          match matched_bracket_pat s with
          | Some n => sub_matched_from (n - 1) r
          | None => String c (sub_matched_from 0 r)
          end
      end
  end.

Definition sub_matched (s : string) : string := sub_matched_from 0 s.

(** [bracket_pat = r'^\s*}.*?{\s*$'], as [bracket_pat.match(s)].
    [bp_tail] is [\s*$] ([$] holds at the end and before a final line
    feed), [bp_mid] is [.*?{\s*$], [bp_head] is [\s*}.*?{\s*$]. *)
Fixpoint bp_tail (s : string) : bool :=
  match s with
  | EmptyString => true
  | String c r =>
      (Ascii.eqb c LF && negb (truthy r)) || (isspace c && bp_tail r)
  end.

Fixpoint bp_mid (s : string) : bool :=
  match s with
  | EmptyString => false
  | String c r =>
      (Ascii.eqb c "{" && bp_tail r) || (negb (Ascii.eqb c LF) && bp_mid r)
  end.

Fixpoint bp_head (s : string) : bool :=
  match s with
  | EmptyString => false
  | String c r =>
      (Ascii.eqb c "}" && bp_mid r) || (isspace c && bp_head r)
  end.

Definition bracket_pat (s : string) : bool := bp_head s.

(** [semicolon_pat = '}\s*;'], as [semicolon_pat.search(s)].
    [sc_tail] is [\s*;]. *)
Fixpoint sc_tail (s : string) : bool :=
  match s with
  | EmptyString => false
  | String c r => Ascii.eqb c ";" || (isspace c && sc_tail r)
  end.

Fixpoint semicolon_pat (s : string) : bool :=
  match s with
  | EmptyString => false
  | String c r => (Ascii.eqb c "}" && sc_tail r) || semicolon_pat r
  end.

End Re.

(** [for x in xs] threading a state, stopped by the first exception. *)
Fixpoint for_in {X St : Type} (body : X -> St -> res St)
    (xs : list X) (s : St) : res St :=
  match xs with
  | [] => Ok s
  | x :: xs' => let* s' := body x s in for_in body xs' s'
  end.

(** [xs[i]] and [xs[i] = x] for [i >= 0]: out of range is an [IndexError]. *)
Definition getitem (xs : list string) (i : nat) : res string :=
  match xs !! i with
  | Some x => Ok x
  | None => Raise (BadIndex i)
  end.

Definition setitem (xs : list string) (i : nat) (x : string) : res (list string) :=
  if i <? length xs then Ok (<[i:=x]> xs) else Raise (BadIndex i).

(** ** class IndentedTypeScript *)

Module IndentedTS.

Import Py.

Definition nl : string := String LF EmptyString.

(** *** check_brackets *)

(** The body of the loop over [enumerate(guide_lines)]. *)
Definition check_brackets_line (i : nat) (line0 : string) (_ : unit) : res unit :=
  let line := Re.sub_matched line0 in
  let n1 := count "{" line in
  let n2 := count "}" line in
  if (1 <? n1) || (1 <? n2) then
    Raise (TooManyCurlies i (strip line))
  else if (n1 =? 1) && (n2 =? 1) && (find "}" line <? find "{" line)%Z then
    if Re.bracket_pat line then Ok tt
    else Raise (InvalidCurlies i (strip line))
  else Ok tt.

Definition check_brackets (guide_lines : list string) : res unit :=
  enum_for check_brackets_line 0 guide_lines tt.

(** *** check_indentation *)

(** The loop state: the two running depths, and the lines traced with
    the warning [Unusual lws in parens]. *)
Record indent_state := IndentState {
  curlies : Z;
  parens : Z;
  warnings : list string
}.

(** [for m in re.finditer(pat, line): n += d]. *)
Definition for_matches (pat : ascii -> bool) (line : string) (d n : Z) : Z :=
  fold_left (fun acc _ => (acc + d)%Z) (Re.finditer pat line) n.

Definition check_indentation_line (indent : Z) (ws_char : ascii)
    (i : nat) (line : string) (st : indent_state) : res indent_state :=
  let lws_s := Re.ws_pat_group0 ws_char line in
  let lws := Z.of_nat (String.length lws_s) in
  let lws_level := (lws / Z.abs indent)%Z in
  let lws_remainder := (lws mod Z.abs indent)%Z in
  let* warned :=
    if negb (parens st =? 0)%Z && negb (lws_remainder =? 0)%Z then
      Ok (warnings st ++ [line])
    else if (parens st =? 0)%Z && truthy (strip line) then
      let curlies2 := for_matches Re.curly_pat2 line (-1) (curlies st) in
      if ((0 <? curlies2)%Z && negb (lws_level =? curlies2)%Z)
         || negb (lws_remainder =? 0)%Z
      then Raise (BadIndentation curlies2 line)
      else Ok (warnings st)
    else Ok (warnings st) in
  let curlies' :=
    for_matches Re.curly_pat2 line (-1)
      (for_matches Re.curly_pat1 line 1 (curlies st)) in
  let parens' :=
    for_matches Re.paren_pat2 line (-1)
      (for_matches Re.paren_pat1 line 1 (parens st)) in
  Ok (IndentState curlies' parens' warned).

(** The value is the loop state after the last line; the Python
    function returns [None]. *)
Definition check_indentation (guide_lines : list string) (indent : Z)
    : res indent_state :=
  let ws_char : ascii := if (indent <? 0)%Z then " "%char else "009"%char in
  let indent_s := repeat_char ws_char (Z.abs_nat indent) in
  let indent_n := String.length indent_s in
  if negb (0 <? indent_n) then
    Raise (AssertionFailed "check_indentation: can not happen: indent_n")
  else
    enum_for (check_indentation_line indent ws_char) 0 guide_lines
      (IndentState 0 0 []).

(** *** remove_brackets *)

Definition tag : string := "remove_brackets".

(** The state of pass 1.  The head of [stack] is the top of the Python
    list used as a stack ([append] and [pop]). *)
Record pass1_state := Pass1State {
  stack : list token;
  info : gmap token token;
  level : Z
}.

Definition pass1_match (line_number : nat) (m : string * nat)
    (st : pass1_state) : res pass1_state :=
  let curly := m.1 in
  let column_number := m.2 in
  let* st' :=
    if String.eqb curly "{" then
      Ok (Pass1State ((curly, line_number, column_number) :: stack st)
            (info st) (level st))
    else if negb (String.eqb curly "}") then
      Raise (AssertionFailed tag)
    else
      match stack st with
      | top :: stack' =>
          let top_curly := top.1.1 in
          if negb (String.eqb top_curly "{") then
            Raise (AssertionFailed (tag +:+ " stack mismatch"))
          else
            let this_info := (curly, line_number, column_number) in
            Ok (Pass1State stack'
                  (<[this_info := top]> (<[top := this_info]> (info st)))
                  (level st))
      | [] => Raise StackUnderflow
      end in
  Ok (Pass1State (stack st') (info st')
        (level st' + (if String.eqb curly "{" then 1 else -1))%Z).

Definition pass1_line (line_number : nat) (line : string)
    (st : pass1_state) : res pass1_state :=
  for_in (pass1_match line_number) (Re.finditer Re.curly_pat line) st.

(** Pass 1, up to and including the test of [level] after the loop. *)
Definition pass1 (guide_lines : list string) : res pass1_state :=
  let* st := enum_for pass1_line 0 guide_lines (Pass1State [] ∅ 0) in
  if negb (level st =? 0)%Z then Raise UnmatchedBrackets else Ok st.

Definition pass2_match (info : gmap token token) (line_number : nat)
    (m : string * nat) (_ : unit) : res unit :=
  let this_info := (m.1, line_number, m.2) in
  match info !! this_info with
  | Some matching_info => Ok tt
  | None => Raise (NoMatchingInfo this_info)
  end.

Definition pass2 (info : gmap token token) (guide_lines : list string) : res unit :=
  enum_for
    (fun line_number line =>
       for_in (pass2_match info line_number) (Re.finditer Re.curly_pat line))
    0 guide_lines tt.

(** [s[:column] + ' ' + s[column + 1:]]. *)
Definition blank_at (column : nat) (s : string) : string :=
  slice_to column s +:+ " " +:+ slice_from (column + 1) s.

(** [x.rstrip() + '\n' if x.strip() else '\n']. *)
Definition tidy (x : string) : string :=
  if truthy (strip x) then rstrip x +:+ nl else nl.

(** The loop over [re.finditer(close_curly_pat, line)] in pass 3; the
    [break] of the same-line case ends it. *)
Fixpoint pass3_closes (info : gmap token token)
    (guide_lines lines : list string) (line_number : nat)
    (ms : list (string * nat)) (result_lines : list string)
    : res (list string) :=
  match ms with
  | [] => Ok result_lines
  | m :: ms' =>
      let column_number := m.2 in
      let this_info : token := ("}", line_number, column_number) in
      match info !! this_info with
      | None => Raise (MissingKey this_info)
      | Some (match_curly, match_line, match_column) =>
          if negb (String.eqb match_curly "{") then
            Raise (AssertionFailed (tag +:+ ": wrong matching curly bracket"))
          else if match_line =? line_number then
            let* this := getitem lines line_number in
            Ok (result_lines ++ [this])
          else
            (* the trace prints guide_lines[match_line] *)
            let* _ := getitem guide_lines match_line in
            let* s := getitem lines match_line in
            let new_line := blank_at match_column s in
            let* result_lines := setitem result_lines match_line (tidy new_line) in
            let* s := getitem lines line_number in
            let this_line := blank_at column_number s in
            pass3_closes info guide_lines lines line_number ms'
              (result_lines ++ [tidy this_line])
      end
  end.

Definition pass3_line (info : gmap token token)
    (guide_lines lines : list string) (line_number : nat) (line : string)
    (result_lines : list string) : res (list string) :=
  if negb (contains "}" line) then
    Ok (result_lines ++ [line])
  else if Re.semicolon_pat line then
    let* this := getitem lines line_number in
    Ok (result_lines ++ [this])
  else
    pass3_closes info guide_lines lines line_number
      (Re.finditer Re.curly_pat2 line) result_lines.

Definition pass3 (info : gmap token token) (guide_lines lines : list string)
    : res (list string) :=
  enum_for (pass3_line info guide_lines lines) 0 guide_lines [].

(** The value is [result_lines] as the function prints it before it
    returns; the Python function itself returns [None]. *)
Definition remove_brackets (guide_lines lines : list string) : res (list string) :=
  let* st := pass1 guide_lines in
  do pass2 (info st) guide_lines then
  pass3 (info st) guide_lines lines.

(** *** The outline

    A vnode is identified by its gnx; [store] holds the body text [v.b]
    of every vnode.  A position of the outline is modelled by the gnx of
    its vnode, so that [p2.v] and [p2.gnx] name the same node, the first
    as a [VNode] object and the second as a [str]. *)

Abbreviation gnx := string (only parsing).

(** The [store] is the map from a vnode to its body. *)
Definition body (st : gmap gnx string) (v : gnx) : string :=
  default EmptyString (st !! v).

(** The keys met by the dict [backup_d]: it is filled with [VNode]
    objects and queried with gnx strings.  A [VNode] and a [str] never
    compare equal. *)
Inductive pykey :=
| KVNode (v : gnx)
| KStr (s : string).

#[global] Instance pykey_eq_dec : EqDecision pykey.
Proof. solve_decision. Defined.

#[global] Instance pykey_countable : Countable pykey.
Proof.
  refine (inj_countable'
    (fun k => match k with KVNode v => inl v | KStr s => inr s end)
    (fun x => match x with inl v => KVNode v | inr s => KStr s end) _).
  intros []; reflexivity.
Defined.

Section Driver.

(** The two collaborators that live outside the plugin:
    [g.splitLines] and [TS_Importer.make_guide_lines]. *)
Variable splitLines : string -> list string.
Variable make_guide_lines : list string -> list string.

(** *** do_remove_brackets

    Neither the driver nor [remove_brackets] assigns to [p.b]: the store
    is returned as it was received.  The second component is the
    [result_lines] printed by [remove_brackets], [None] for a node
    skipped as empty. *)
Definition do_remove_brackets (indent : Z) (p : gnx) (st : gmap gnx string)
    : res (gmap gnx string * option (list string)) :=
  let contents := body st p in
  if negb (truthy (strip contents)) then Ok (st, None)
  else
    let lines := splitLines contents in
    let guide_lines := make_guide_lines lines in
    if negb (negb (length lines =? 0) && (length lines =? length guide_lines)) then
      Raise (AssertionFailed "do_remove_brackets")
    else
      do check_brackets guide_lines then
      let* _ := check_indentation guide_lines indent in
      let* result_lines := remove_brackets guide_lines lines in
      Ok (st, Some result_lines).

(** *** after_read *)

(** [g.scanAllAtTabWidthDirectives(c, p) or -4]. *)
Definition indent_of (scanned : option Z) : Z :=
  match scanned with
  | Some w => if (w =? 0)%Z then (-4)%Z else w
  | None => (-4)%Z
  end.

(** The backup loop over [p.self_and_subtree()]. *)
Definition backup_step (st : gmap gnx string) (p : gnx)
    (backup_d : gmap pykey string) (p2 : gnx) : gmap pykey string :=
  match backup_d !! KStr p2 with
  | None => <[KVNode p2 := body st p]> backup_d
  | Some _ => backup_d
  end.

Definition backup (st : gmap gnx string) (p : gnx) (batch : list gnx)
    : gmap pykey string :=
  fold_left (backup_step st p) batch ∅.

(** The loop of the [try] block: the store reached, and the exception
    that left the loop, if any. *)
Fixpoint try_loop (indent : Z) (batch : list gnx) (seen : gmap string bool)
    (st : gmap gnx string) : gmap gnx string * option exn :=
  match batch with
  | [] => (st, None)
  | p2 :: batch' =>
      match seen !! p2 with
      | Some _ => try_loop indent batch' seen st
      | None =>
          let seen := <[p2 := true]> seen in
          match do_remove_brackets indent p2 st with
          | Ok r => try_loop indent batch' seen r.1
          | Raise e => (st, Some e)
          end
      end
  end.

(** The [except] block: [for v in backup_d: v.b = backup_d[v]]. *)
Definition restore (backup_d : gmap pykey string) (st : gmap gnx string)
    : gmap gnx string :=
  map_fold
    (fun k b st => match k with KVNode v => <[v := b]> st | KStr _ => st end)
    st backup_d.

(** [p] is the root, [subtree] the positions [p.self_and_subtree()]
    yields after it, [scanned] what [g.scanAllAtTabWidthDirectives]
    returned.  The result is the store after the call and the exception
    reported by the [except] block, if any. *)
Definition after_read (scanned : option Z) (p : gnx) (subtree : list gnx)
    (st : gmap gnx string) : gmap gnx string * option exn :=
  let indent := indent_of scanned in
  let batch := p :: subtree in
  let backup_d := backup st p batch in
  match try_loop indent batch ∅ st with
  | (st', None) => (st', None)
  | (st', Some e) => (restore backup_d st', Some e)
  end.

End Driver.

End IndentedTS.

(** ** Literal-free text with line-feed line ends

    On a body whose only line boundary is the line feed, [g.splitLines]
    cuts after every line feed; on lines that hold no string and no
    comment, the guide line of a line is the line itself. *)

Fixpoint split_after_LF (cur s : string) : list string :=
  match s with
  | EmptyString => if Py.truthy cur then [cur] else []
  | String c r =>
      if Ascii.eqb c Py.LF then (cur +:+ String c EmptyString) :: split_after_LF EmptyString r
      else split_after_LF (cur +:+ String c EmptyString) r
  end.

Definition splitLines_LF (s : string) : list string := split_after_LF EmptyString s.

Definition guide_lines_plain (lines : list string) : list string := lines.

(** ** The token sequence of a unit

    The bracket tokens in the order in which passes 1 and 2 meet them:
    line by line, left to right within a line. *)

Definition line_tokens (line_number : nat) (line : string) : list token :=
  map (fun m => (m.1, line_number, m.2)) (Re.finditer Re.curly_pat line).

Fixpoint tokens_from (i : nat) (guide_lines : list string) : list token :=
  match guide_lines with
  | [] => []
  | line :: rest => line_tokens i line ++ tokens_from (S i) rest
  end.

Definition tokens (guide_lines : list string) : list token :=
  tokens_from 0 guide_lines.

Definition is_open (t : token) : Prop := t.1.1 = "{".
Definition is_close (t : token) : Prop := t.1.1 = "}".

(** The body of pass 1 on a token, and the state of pass 1 after a
    prefix [ts] of the token sequence. *)
Definition pass1_token (t : token) (st : IndentedTS.pass1_state)
    : res IndentedTS.pass1_state :=
  IndentedTS.pass1_match t.1.2 (t.1.1, t.2) st.

Definition scan (ts : list token) : res IndentedTS.pass1_state :=
  for_in pass1_token ts (IndentedTS.Pass1State [] ∅ 0).

(** The body of pass 2 on a token. *)
Definition pass2_token (info : gmap token token) (t : token) (_ : unit) : res unit :=
  IndentedTS.pass2_match info t.1.2 (t.1.1, t.2) tt.

(** ** The shapes of a line named by the bracket check *)

Fixpoint str_forall (P : ascii -> bool) (s : string) : bool :=
  match s with
  | EmptyString => true
  | String c r => P c && str_forall P r
  end.





(** An open followed by a close with no line feed between them: a
    self-contained pair. *)
Definition same_line_pair (line : string) : Prop :=
  exists a b c, line = a +:+ "{" +:+ b +:+ "}" +:+ c /\ Py.count Py.LF b = 0.

(** The same, as a scan. *)
Fixpoint has_pair (line : string) : bool :=
  match line with
  | EmptyString => false
  | String c r =>
      (Ascii.eqb c "{" && bool_decide (is_Some (Re.lazy_to_close r)))
      || has_pair r
  end.


(** ** The indentation rule as the specification words it

    The leading width is measured as the code measures it.  A line whose
    remainder is nonzero while the parenthesis depth is positive only
    warns; otherwise a non-blank line is an error when the projected
    depth is positive and differs from the level, or when the remainder
    is nonzero. *)
Definition claimed_indentation_error (indent : Z) (st : IndentedTS.indent_state)
    (line : string) : bool :=
  let ws_char : ascii := if (indent <? 0)%Z then " "%char else "009"%char in
  let lws := Z.of_nat (String.length (Re.ws_pat_group0 ws_char line)) in
  let level := (lws / Z.abs indent)%Z in
  let remainder := (lws mod Z.abs indent)%Z in
  let projected := (IndentedTS.curlies st - Z.of_nat (Py.count "}" line))%Z in
  if (0 <? IndentedTS.parens st)%Z && negb (remainder =? 0)%Z then false
  else
    Py.truthy (Py.strip line)
    && (((0 <? projected)%Z && negb (level =? projected)%Z)
        || negb (remainder =? 0)%Z).

(** ** Content of a unit

    The characters that are neither white space nor curly brackets, in
    order, over all the lines of a unit. *)
Fixpoint content_chars_of (s : string) : list ascii :=
  match s with
  | EmptyString => []
  | String c r =>
      if Py.isspace c || Re.curly_pat c then content_chars_of r
      else c :: content_chars_of r
  end.

Definition content_chars (lines : list string) : list ascii :=
  flat_map content_chars_of lines.

(** ** The invariant of pass 1

    [seen] is the prefix of the token sequence already scanned. *)

Record pass1_inv (seen : list token) (st : IndentedTS.pass1_state) : Prop := Pass1Inv {
  inv_stack : forall t, t ∈ IndentedTS.stack st -> t ∈ seen /\ is_open t /\ IndentedTS.info st !! t = None;
  inv_stack_NoDup : NoDup (IndentedTS.stack st);
  inv_sym : forall a b, IndentedTS.info st !! a = Some b -> IndentedTS.info st !! b = Some a;
  inv_kinds : forall a b, IndentedTS.info st !! a = Some b ->
    a ∈ seen /\ ((is_open a /\ is_close b) \/ (is_close a /\ is_open b));
  inv_total : forall t, t ∈ seen -> t ∈ IndentedTS.stack st \/ is_Some (IndentedTS.info st !! t);
  inv_level : IndentedTS.level st = Z.of_nat (length (IndentedTS.stack st))
}.

(** ** Counting and ordering bracket tokens *)

(** The number of tokens of [ts] whose bracket is [curly]. *)
Fixpoint count_tokens (curly : string) (ts : list token) : nat :=
  match ts with
  | [] => 0
  | t :: r => (if String.eqb t.1.1 curly then 1 else 0) + count_tokens curly r
  end.

(** [a] lies before [b] in the text: on an earlier line, or earlier on
    the same line. *)
Definition pos_lt (a b : token) : Prop :=
  a.1.2 < b.1.2 \/ (a.1.2 = b.1.2 /\ a.2 < b.2).

(** The occurrences of a character over all the lines of a unit. *)
Fixpoint total_count (c : ascii) (lines : list string) : nat :=
  match lines with
  | [] => 0
  | l :: r => Py.count c l + total_count c r
  end.

(** What pass 1 guarantees about a close that pass 3 meets on line [k]:
    it is a key of [info], and its partner is an open on line [k] or on
    an earlier line. *)
Definition closes_paired (info : gmap token token) (gl : list string) : Prop :=
  forall k line m,
    gl !! k = Some line -> m ∈ Re.finditer Re.curly_pat2 line ->
    exists ml mcol, info !! ("}"%string, k, m.2) = Some ("{"%string, ml, mcol) /\ ml <= k.

(** A node passes when the driver returns on its body. *)
Definition node_passes (splitLines : string -> list string)
    (make_guide_lines : list string -> list string)
    (indent : Z) (st : gmap string string) (u : string) : Prop :=
  exists r,
    IndentedTS.do_remove_brackets splitLines make_guide_lines indent u st = Ok r.

(** ** What pass 3 does to a line

    [untouched info i line]: pass 3 makes no substitution when it meets
    [line] at index [i]: the line has no close, or a close followed by a
    semicolon, or its first close is paired with an open of the same
    line. *)
Definition untouched (info : gmap token token) (i : nat) (line : string) : Prop :=
  Py.contains "}" line = false
  \/ Re.semicolon_pat line = true
  \/ exists m rest mcol,
       Re.finditer Re.curly_pat2 line = m :: rest
       /\ info !! ("}"%string, i, m.2) = Some ("{"%string, i, mcol).

(** The line pass 3 appends for an untouched line: the real line when the
    guide line has a close, the guide line otherwise. *)
Definition pick (guide_line line : string) : string :=
  if Py.contains "}" guide_line then line else guide_line.

(** ** The event handlers and the registry [gControllers]

    A commander is identified by [c.hash()], the key of the registry; the
    controller [IndentedTypeScript(c)] is identified by the commander it
    was built for.  An event argument that is missing from the keyword
    dict, or falsy, is [None].  A position comes with the positions
    [p.self_and_subtree()] yields after it. *)

(** What a handler does with an event: trace "Can not happen", call the
    controller, or fail on [None] where [gControllers.get] found no
    controller ([AttributeError]). *)
Inductive handled (A : Type) :=
| Traced
| Called (a : A)
| NoController.
Arguments Traced {A}.
Arguments Called {A} a.
Arguments NoController {A}.

Definition onCreate (c : option string) (gControllers : gmap string string)
    : gmap string string :=
  match c with
  | Some h => <[h := h]> gControllers
  | None => gControllers
  end.

Definition onAfterRead (splitLines : string -> list string)
    (make_guide_lines : list string -> list string)
    (c : option string) (p : option (string * list string))
    (scanned : option Z) (gControllers : gmap string string)
    (st : gmap string string)
    : handled (gmap string string * option exn) :=
  match c, p with
  | Some h, Some (root, subtree) =>
      match gControllers !! h with
      | Some controller =>
          Called (IndentedTS.after_read splitLines make_guide_lines
                    scanned root subtree st)
      | None => NoController
      end
  | _, _ => Traced
  end.

(** * Properties *)

Import Py IndentedTS.

#[local] Arguments String.append !_ _ / : simpl nomatch.

(** ** Loops *)

Lemma for_in_app {X St} (f : X -> St -> res St) xs ys s :
  for_in f (xs ++ ys) s = (let* s' := for_in f xs s in for_in f ys s').
Proof.
  revert s. induction xs as [|x xs IH]; intros s; simpl; [done|].
  destruct (f x s); simpl; auto.
Qed.

Lemma for_in_map {X Y St} (g : X -> Y) (f : Y -> St -> res St) xs s :
  for_in f (map g xs) s = for_in (fun x => f (g x)) xs s.
Proof.
  revert s. induction xs as [|x xs IH]; intros s; simpl; [done|].
  destruct (f (g x) s); simpl; auto.
Qed.

Lemma enum_for_app {X St} (f : nat -> X -> St -> res St) i xs ys s :
  enum_for f i (xs ++ ys) s =
  (let* s' := enum_for f i xs s in enum_for f (i + length xs) ys s').
Proof.
  revert i s. induction xs as [|x xs IH]; intros i s; simpl.
  - by rewrite Nat.add_0_r.
  - destruct (f i x s); simpl; [|done].
    rewrite IH. by replace (i + S (length xs)) with (S i + length xs) by lia.
Qed.

Lemma bind_ok {A B} (r : res A) (k : A -> res B) b :
  bind r k = Ok b -> exists a, r = Ok a /\ k a = Ok b.
Proof. destruct r; simpl; [eauto|discriminate]. Qed.

(** ** Pass 1 as a scan of the token sequence *)

Lemma pass1_line_tokens i line st :
  pass1_line i line st = for_in pass1_token (line_tokens i line) st.
Proof. unfold pass1_line, line_tokens. by rewrite for_in_map. Qed.

Lemma enum_for_pass1 gl : forall i st,
  enum_for pass1_line i gl st = for_in pass1_token (tokens_from i gl) st.
Proof.
  induction gl as [|l gl IH]; intros i st; simpl; [done|].
  rewrite for_in_app, pass1_line_tokens.
  destruct (for_in pass1_token (line_tokens i l) st); simpl; auto.
Qed.

Lemma pass1_scan gl :
  pass1 gl =
  (let* st := scan (tokens gl) in
   if negb (level st =? 0)%Z then Raise UnmatchedBrackets else Ok st).
Proof. unfold pass1, scan, tokens. by rewrite enum_for_pass1. Qed.

(** The matches of a one-character pattern: increasing columns. *)
Lemma finditer_from_ge p i s m :
  m ∈ Re.finditer_from p i s -> i <= m.2.
Proof.
  revert i. induction s as [|c r IH]; intros i; simpl.
  - by intros ?%elem_of_nil.
  - destruct (p c).
    + intros [->|H]%elem_of_cons; simpl; [lia|]. apply IH in H. lia.
    + intros H. apply IH in H. lia.
Qed.

Lemma finditer_from_NoDup p i s :
  NoDup (map snd (Re.finditer_from p i s)).
Proof.
  revert i. induction s as [|c r IH]; intros i; simpl; [constructor|].
  destruct (p c); simpl; [|apply IH].
  constructor; [|apply IH].
  intros [m [E H]]%list_elem_of_fmap. apply finditer_from_ge in H.
  simpl in *. lia.
Qed.

Lemma finditer_curly_group p i s m :
  m ∈ Re.finditer_from p i s ->
  exists c, m.1 = String c EmptyString /\ p c = true.
Proof.
  revert i. induction s as [|c r IH]; intros i; simpl.
  - by intros ?%elem_of_nil.
  - destruct (p c) eqn:E; [|apply IH].
    intros [->|H]%elem_of_cons; [eauto|]. eapply IH, H.
Qed.

Lemma curly_pat_cases c :
  Re.curly_pat c = true ->
  String c EmptyString = "{" \/ String c EmptyString = "}".
Proof.
  unfold Re.curly_pat. intros [H|H]%orb_true_iff; apply Ascii.eqb_eq in H; subst; auto.
Qed.

Lemma line_tokens_spec i line t :
  t ∈ line_tokens i line -> t.1.2 = i /\ (is_open t \/ is_close t).
Proof.
  unfold line_tokens. intros [m [-> H]]%list_elem_of_fmap. simpl. split; [done|].
  apply finditer_curly_group in H as [c [E Hc]].
  unfold is_open, is_close. simpl. rewrite E. by apply curly_pat_cases.
Qed.

Lemma line_tokens_NoDup i line : NoDup (line_tokens i line).
Proof.
  unfold line_tokens.
  apply (NoDup_fmap_1 snd). rewrite <- list_fmap_compose.
  apply finditer_from_NoDup.
Qed.

Lemma tokens_from_line gl : forall i t,
  t ∈ tokens_from i gl -> i <= t.1.2 /\ (is_open t \/ is_close t).
Proof.
  induction gl as [|l gl IH]; intros i t; simpl.
  - by intros ?%elem_of_nil.
  - intros [H|H]%elem_of_app.
    + apply line_tokens_spec in H as [-> ?]. auto.
    + apply IH in H as [? ?]. split; [lia|done].
Qed.

Lemma tokens_from_NoDup gl : forall i, NoDup (tokens_from i gl).
Proof.
  induction gl as [|l gl IH]; intros i; simpl; [constructor|].
  apply NoDup_app. split; [apply line_tokens_NoDup|]. split; [|apply IH].
  intros t H1 H2. apply line_tokens_spec in H1 as [E _].
  apply tokens_from_line in H2 as [? _]. lia.
Qed.

(** ** Pass 1 keeps its invariant *)

Lemma pass1_inv_init : pass1_inv [] (Pass1State [] ∅ 0).
Proof.
  split; simpl; try done.
  - by intros t ?%elem_of_nil.
  - constructor.
  - by intros t ?%elem_of_nil.
Qed.

Lemma pass1_token_open t st :
  is_open t ->
  pass1_token t st = Ok (Pass1State (t :: stack st) (info st) (level st + 1)).
Proof.
  destruct t as [[c l] k]. unfold is_open, pass1_token, pass1_match. simpl.
  by intros ->.
Qed.

Lemma pass1_token_close t st :
  is_close t ->
  pass1_token t st =
  match stack st with
  | top :: stack' =>
      if negb (String.eqb top.1.1 "{") then
        Raise (AssertionFailed (tag +:+ " stack mismatch"))
      else Ok (Pass1State stack' (<[t := top]> (<[top := t]> (info st)))
                 (level st - 1))
  | [] => Raise StackUnderflow
  end.
Proof.
  destruct t as [[c l] k]. unfold is_close, pass1_token, pass1_match. simpl.
  intros ->. simpl. destruct (stack st) as [|top stack']; [done|].
  by destruct (negb _).
Qed.

Lemma pass1_inv_step seen st t st' :
  pass1_inv seen st -> t ∉ seen -> is_open t \/ is_close t ->
  pass1_token t st = Ok st' ->
  pass1_inv (seen ++ [t]) st'.
Proof.
  intros [I1 I2 I3 I4 I5 I6] Hfresh [Ho|Hc] Hstep.
  - rewrite pass1_token_open in Hstep by done. injection Hstep as <-.
    assert (Hnone : info st !! t = None).
    { destruct (info st !! t) eqn:E; [|done]. by apply I4 in E as [? _]. }
    split; simpl.
    + intros s [->|Hs]%elem_of_cons.
      * split; [apply elem_of_app; right; apply list_elem_of_here|done].
      * destruct (I1 s Hs) as (? & ? & ?).
        split; [apply elem_of_app; by left|done].
    + constructor; [|done]. intros Hin. by apply I1 in Hin as [? _].
    + done.
    + intros a b E. destruct (I4 a b E) as [? ?].
      split; [apply elem_of_app; by left|done].
    + intros s [Hs|Hs%list_elem_of_singleton]%elem_of_app.
      * destruct (I5 s Hs); [left; by apply list_elem_of_further|by right].
      * subst. left. apply list_elem_of_here.
    + rewrite I6. lia.
  - rewrite pass1_token_close in Hstep by done.
    destruct (stack st) as [|top stack'] eqn:Es; [done|].
    destruct (negb _); [done|]. injection Hstep as <-.
    assert (Htop : top ∈ seen /\ is_open top /\ info st !! top = None).
    { apply I1. apply list_elem_of_here. }
    destruct Htop as (Htop1 & Htop2 & Htop3).
    assert (Hne : t <> top) by (intros ->; done).
    apply NoDup_cons in I2 as [Hnotin I2].
    split; simpl.
    + intros s Hs.
      destruct (I1 s (list_elem_of_further _ _ _ Hs)) as (? & ? & ?).
      split; [apply elem_of_app; by left|]. split; [done|].
      rewrite !lookup_insert_ne; [done| |]; intros <-; done.
    + done.
    + intros a b E.
      destruct (decide (t = a)) as [<-|Ha].
      { rewrite lookup_insert_eq in E. injection E as <-.
        rewrite lookup_insert_ne by done. apply lookup_insert_eq. }
      rewrite lookup_insert_ne in E by done.
      destruct (decide (top = a)) as [<-|Ha'].
      { rewrite lookup_insert_eq in E. injection E as <-. apply lookup_insert_eq. }
      rewrite lookup_insert_ne in E by done.
      pose proof (I3 _ _ E) as E'. pose proof (I4 _ _ E') as [Hb _].
      rewrite !lookup_insert_ne; [done| |]; intros <-; [congruence|done].
    + intros a b E.
      destruct (decide (t = a)) as [<-|Ha].
      { rewrite lookup_insert_eq in E. injection E as <-.
        split; [apply elem_of_app; right; apply list_elem_of_here|]. by right. }
      rewrite lookup_insert_ne in E by done.
      destruct (decide (top = a)) as [<-|Ha'].
      { rewrite lookup_insert_eq in E. injection E as <-.
        split; [apply elem_of_app; by left|]. by left. }
      rewrite lookup_insert_ne in E by done.
      destruct (I4 _ _ E). split; [apply elem_of_app; by left|done].
    + intros s [Hs|Hs%list_elem_of_singleton]%elem_of_app.
      * destruct (I5 s Hs) as [[->|H]%elem_of_cons|H].
        -- right. rewrite lookup_insert_ne by done.
           rewrite lookup_insert_eq. eauto.
        -- by left.
        -- right. rewrite !lookup_insert. repeat case_decide; eauto.
      * subst. right. rewrite lookup_insert_eq. eauto.
    + rewrite I6. simpl. lia.
Qed.

Lemma pass1_inv_scan ts : forall seen st st',
  pass1_inv seen st -> NoDup (seen ++ ts) ->
  (forall t, t ∈ ts -> is_open t \/ is_close t) ->
  for_in pass1_token ts st = Ok st' ->
  pass1_inv (seen ++ ts) st'.
Proof.
  induction ts as [|t ts IH]; intros seen st st' Hinv Hnd Hk Hrun; simpl in Hrun.
  - injection Hrun as <-. by rewrite app_nil_r.
  - apply bind_ok in Hrun as [st1 [Hstep Hrun]].
    replace (seen ++ t :: ts) with ((seen ++ [t]) ++ ts) in *
      by (by rewrite <- app_assoc).
    eapply IH; [|done| |done].
    + eapply pass1_inv_step; [done| | |done].
      * apply NoDup_app in Hnd as [Hnd _].
        apply NoDup_app in Hnd as (_ & Hnd & _).
        intros Hin. apply (Hnd _ Hin). apply list_elem_of_here.
      * apply Hk. apply list_elem_of_here.
    + intros s Hs. apply Hk. by apply list_elem_of_further.
Qed.

Lemma tokens_kind gl t : t ∈ tokens gl -> is_open t \/ is_close t.
Proof. intros H. by apply tokens_from_line in H as [_ ?]. Qed.

Lemma scan_inv gl st : scan (tokens gl) = Ok st -> pass1_inv (tokens gl) st.
Proof.
  intros H. apply (pass1_inv_scan (tokens gl) [] _ st pass1_inv_init); simpl.
  - apply tokens_from_NoDup.
  - apply tokens_kind.
  - exact H.
Qed.

Lemma pass1_ok_inv gl st :
  pass1 gl = Ok st -> pass1_inv (tokens gl) st /\ stack st = [].
Proof.
  rewrite pass1_scan. intros [st1 [Hs Ht]]%bind_ok.
  destruct (level st1 =? 0)%Z eqn:E; simpl in Ht; [|done].
  injection Ht as <-. pose proof (scan_inv _ _ Hs) as Hinv.
  split; [done|].
  apply Z.eqb_eq in E. rewrite (inv_level _ _ Hinv) in E.
  destruct (stack st1); [done|simpl in E; lia].
Qed.

Lemma pass1_ok_total gl st t :
  pass1 gl = Ok st -> t ∈ tokens gl -> is_Some (info st !! t).
Proof.
  intros [Hinv Hst]%pass1_ok_inv Ht.
  destruct (inv_total _ _ Hinv t Ht) as [H|H]; [|done].
  rewrite Hst in H. by apply elem_of_nil in H.
Qed.

(** The assertions of pass 1 hold: the only errors of the pass are the
    stack underflow and the unmatched brackets. *)
Lemma scan_raise ts : forall seen st e,
  pass1_inv seen st -> NoDup (seen ++ ts) ->
  (forall t, t ∈ ts -> is_open t \/ is_close t) ->
  for_in pass1_token ts st = Raise e -> e = StackUnderflow.
Proof.
  induction ts as [|t ts IH]; intros seen st e Hinv Hnd Hk Hrun; [done|].
  simpl in Hrun.
  assert (Hfresh : t ∉ seen).
  { apply NoDup_app in Hnd as (_ & Hnd & _). intros Hin.
    apply (Hnd _ Hin). apply list_elem_of_here. }
  assert (Ht : is_open t \/ is_close t) by apply Hk, list_elem_of_here.
  destruct (pass1_token t st) as [st1|e1] eqn:E; simpl in Hrun.
  - apply (IH (seen ++ [t]) st1); [by eapply pass1_inv_step| | |done].
    + by rewrite <- app_assoc.
    + intros s Hs. apply Hk. by apply list_elem_of_further.
  - injection Hrun as <-. destruct Ht as [Ho|Hc].
    + by rewrite pass1_token_open in E.
    + rewrite pass1_token_close in E by done.
      destruct (stack st) as [|top stack'] eqn:Es; [by injection E as <-|].
      destruct (inv_stack _ _ Hinv top) as (_ & Htop & _).
      { rewrite Es. apply list_elem_of_here. }
      unfold is_open in Htop. by rewrite Htop in E.
Qed.

Lemma pass1_errors gl e :
  pass1 gl = Raise e -> e = StackUnderflow \/ e = UnmatchedBrackets.
Proof.
  rewrite pass1_scan. destruct (scan (tokens gl)) as [st|e1] eqn:E; simpl.
  - destruct (negb _); [|done]. intros [= <-]. by right.
  - intros [= <-]. left.
    apply (scan_raise (tokens gl) [] _ _ pass1_inv_init); simpl; [| |done].
    + apply tokens_from_NoDup.
    + apply tokens_kind.
Qed.

(** ** Pass 2 as a scan of the token sequence *)

Lemma enum_for_pass2 info gl : forall i u,
  enum_for
    (fun line_number line =>
       for_in (pass2_match info line_number) (Re.finditer Re.curly_pat line))
    i gl u
  = for_in (pass2_token info) (tokens_from i gl) u.
Proof.
  induction gl as [|l gl IH]; intros i u; simpl; [done|].
  rewrite for_in_app. unfold line_tokens at 1. rewrite for_in_map.
  assert (E : forall ms v,
    for_in (pass2_match info i) ms v
    = for_in (fun x => pass2_token info (x.1, i, x.2)) ms v).
  { induction ms as [|[c k] ms IHm]; intros []; simpl; [done|].
    unfold pass2_token at 1. simpl.
    destruct (pass2_match info i (c, k) ()) as [[]|]; simpl; auto. }
  rewrite E.
  destruct (for_in _ (Re.finditer Re.curly_pat l) u); simpl; auto.
Qed.

Lemma for_in_pass2_ok info ts :
  (forall t, t ∈ ts -> is_Some (info !! t)) ->
  for_in (pass2_token info) ts tt = Ok tt.
Proof.
  induction ts as [|[[c l] k] ts IH]; intros H; simpl; [done|].
  unfold pass2_token at 1, pass2_match. simpl.
  destruct (H (c, l, k)) as [x Hx]; [apply list_elem_of_here|]. rewrite Hx. simpl.
  apply IH. intros t Ht. apply H. by apply list_elem_of_further.
Qed.

(** ** The balance invariant of the matching pass *)

(** C4.  Pass 1 scans the bracket tokens of the guide lines line by line
    and left to right.  A close met while the stack is empty raises
    "stack underflow"; a scan that ends with a nonzero running level
    raises "unmatch brackets"; and when pass 1 returns, the stack is
    empty and [info] pairs every open token of the unit with exactly one
    close token of the unit and conversely: the association is symmetric,
    it maps opens to closes and closes to opens, and no two tokens share
    a partner. *)
Theorem pass1_balance_invariant (guide_lines : list string) :
  (forall pre t post st,
     tokens guide_lines = pre ++ t :: post -> is_close t ->
     scan pre = Ok st -> stack st = [] ->
     pass1 guide_lines = Raise StackUnderflow)
  /\ (forall st,
     scan (tokens guide_lines) = Ok st -> level st <> 0%Z ->
     pass1 guide_lines = Raise UnmatchedBrackets)
  /\ (forall st,
     pass1 guide_lines = Ok st ->
     stack st = []
     /\ (forall a b, info st !! a = Some b <-> info st !! b = Some a)
     /\ (forall t, t ∈ tokens guide_lines -> is_open t ->
           exists t', info st !! t = Some t' /\ is_close t' /\ t' ∈ tokens guide_lines)
     /\ (forall t, t ∈ tokens guide_lines -> is_close t ->
           exists t', info st !! t = Some t' /\ is_open t' /\ t' ∈ tokens guide_lines)
     /\ (forall a b c, info st !! a = Some c -> info st !! b = Some c -> a = b)).
Proof.
  split; [|split].
  - intros pre t post st Htok Hc Hpre Hempty.
    rewrite pass1_scan, Htok. unfold scan in *.
    rewrite for_in_app, Hpre. simpl.
    rewrite pass1_token_close by done. by rewrite Hempty.
  - intros st Hs Hl. rewrite pass1_scan, Hs. simpl.
    apply Z.eqb_neq in Hl. by rewrite Hl.
  - intros st Hok. destruct (pass1_ok_inv _ _ Hok) as [Hinv Hst].
    assert (Hkind : forall t t', info st !! t = Some t' ->
              t' ∈ tokens guide_lines).
    { intros t t' E. apply (inv_sym _ _ Hinv) in E.
      by apply (inv_kinds _ _ Hinv) in E as [? _]. }
    assert (Hoc : forall t, is_open t -> is_close t -> False).
    { unfold is_open, is_close. intros t -> [=]. }
    split; [done|]. split; [|split; [|split]].
    + intros a b. split; apply (inv_sym _ _ Hinv).
    + intros t Ht Ho. destruct (pass1_ok_total _ _ _ Hok Ht) as [t' E].
      exists t'. split; [done|]. split; [|by eapply Hkind].
      destruct (inv_kinds _ _ Hinv _ _ E) as [_ [[_ ?]|[? _]]]; [done|].
      by destruct (Hoc t).
    + intros t Ht Hc. destruct (pass1_ok_total _ _ _ Hok Ht) as [t' E].
      exists t'. split; [done|]. split; [|by eapply Hkind].
      destruct (inv_kinds _ _ Hinv _ _ E) as [_ [[? _]|[_ ?]]]; [|done].
      by destruct (Hoc t).
    + intros a b c Ea Eb.
      apply (inv_sym _ _ Hinv) in Ea, Eb. congruence.
Qed.

Lemma pass1_balance_invariant_witness :
  pass1 ["}"] = Raise StackUnderflow
  /\ pass1 ["{"] = Raise UnmatchedBrackets
  /\ (let st := Pass1State []
                  (<[("}", 1, 0) := ("{", 0, 0)]> (<[("{", 0, 0) := ("}", 1, 0)]> ∅)) 0 in
      stack st = []
      /\ (forall a b, info st !! a = Some b <-> info st !! b = Some a)).
Proof.
  destruct (pass1_balance_invariant ["}"]) as (U & _ & _).
  destruct (pass1_balance_invariant ["{"]) as (_ & B & _).
  destruct (pass1_balance_invariant ["{"; "}"]) as (_ & _ & R).
  split; [|split].
  - apply (U [] ("}", 0, 0) [] (Pass1State [] ∅ 0)); reflexivity.
  - apply (B (Pass1State [("{", 0, 0)] ∅ 1)); [reflexivity|discriminate].
  - intros st. destruct (R st) as (H1 & H2 & _); [vm_compute; reflexivity|].
    split; [exact H1|exact H2].
Defined.

(** ** Pass 2 never fails after pass 1 *)

(** C10.  When pass 1 completes without raising, every bracket token
    found by rescanning the guide lines is a key of the [info] built by
    pass 1, so pass 2 completes and its "no matching info" error is never
    raised. *)
Theorem pass2_no_matching_info_unreachable (guide_lines : list string)
    (st : pass1_state) :
  pass1 guide_lines = Ok st ->
  (forall t, t ∈ tokens guide_lines -> is_Some (info st !! t))
  /\ pass2 (info st) guide_lines = Ok tt.
Proof.
  intros Hok. split.
  - intros t Ht. by eapply pass1_ok_total.
  - unfold pass2. rewrite enum_for_pass2. apply for_in_pass2_ok.
    intros t Ht. by eapply pass1_ok_total.
Qed.

Lemma pass2_no_matching_info_unreachable_witness :
  let st := Pass1State []
              (<[("}", 1, 0) := ("{", 0, 0)]> (<[("{", 0, 0) := ("}", 1, 0)]> ∅)) 0 in
  pass1 ["{"; "}"] = Ok st
  /\ (forall t, t ∈ tokens ["{"; "}"] -> is_Some (info st !! t))
  /\ pass2 (info st) ["{"; "}"] = Ok tt.
Proof.
  intros st.
  assert (H : pass1 ["{"; "}"] = Ok st) by (vm_compute; reflexivity).
  split; [exact H|].
  exact (pass2_no_matching_info_unreachable ["{"; "}"] st H).
Defined.

(** ** Strings *)

Lemma str_app_nil_r s : s +:+ "" = s.
Proof. induction s; simpl; congruence. Qed.








(** ** The pattern [bracket_pat] in words *)




(** ** The bracket check, line by line *)








(** ** The erasure leaves no same-line pair *)

Lemma lazy_to_close_is_Some r :
  is_Some (Re.lazy_to_close r) <->
  exists b c, r = b +:+ String "}" c /\ count LF b = 0.
Proof.
  split.
  - induction r as [|x r IH]; simpl; [by intros [? ?]|].
    destruct (Ascii.eqb_spec x "}") as [->|Hx]; [intros _; by exists "", r|].
    destruct (Ascii.eqb x LF) eqn:El; [by intros [? ?]|].
    intros [k Hk]. destruct (Re.lazy_to_close r) as [k'|]; [|done].
    destruct IH as (b & c & -> & Hb); [done|].
    exists (String x b), c. split; [done|]. simpl. by rewrite El.
  - intros (b & c & -> & Hb). induction b as [|x b IH]; simpl; [done|].
    simpl in Hb. destruct (Ascii.eqb x "}"); [done|].
    destruct (Ascii.eqb x LF); [done|].
    destruct IH as [k ->]; [done|]. by eexists.
Qed.

Lemma has_pair_spec line : has_pair line = true <-> same_line_pair line.
Proof.
  split.
  - induction line as [|x r IH]; simpl; [done|].
    intros [[Hx Hr]%andb_true_iff|H]%orb_true_iff.
    + apply Ascii.eqb_eq in Hx. subst x. apply bool_decide_eq_true in Hr.
      apply lazy_to_close_is_Some in Hr as (b & c & -> & Hb).
      by exists "", b, c.
    + destruct (IH H) as (a & b & c & -> & Hb). by exists (String x a), b, c.
  - intros (a & b & c & -> & Hb).
    change (a +:+ "{" +:+ b +:+ "}" +:+ c)
      with (a +:+ String "{" (b +:+ String "}" c)).
    induction a as [|x a IH]; simpl.
    + rewrite bool_decide_eq_true_2; [done|].
      apply lazy_to_close_is_Some. by exists b, c.
    + rewrite IH. apply orb_true_r.
Qed.

Lemma sub_matched_from_skip s : forall k,
  Re.sub_matched_from k s = Re.sub_matched_from 0 (slice_from k s).
Proof.
  induction s as [|c r IH]; intros [|k]; try reflexivity.
  simpl. apply IH.
Qed.

Lemma length_slice_from k : forall s,
  String.length (slice_from k s) <= String.length s.
Proof.
  induction k as [|k IH]; intros [|c r]; simpl; try lia.
  specialize (IH r). lia.
Qed.

Lemma lazy_to_close_sub_matched r :
  Re.lazy_to_close r = None ->
  Re.lazy_to_close (Re.sub_matched_from 0 r) = None.
Proof.
  induction r as [|x r IH]; [done|].
  cbn [Re.lazy_to_close]. destruct (Ascii.eqb x "}") eqn:Ec; [done|].
  destruct (Ascii.eqb x LF) eqn:El.
  - intros _. cbn [Re.sub_matched_from Re.matched_bracket_pat].
    replace (Ascii.eqb x "{") with false.
    + cbn [Re.lazy_to_close]. by rewrite Ec, El.
    + apply Ascii.eqb_eq in El. by subst x.
  - intros H. destruct (Re.lazy_to_close r) as [k|] eqn:Er; [done|].
    cbn [Re.sub_matched_from Re.matched_bracket_pat]. rewrite Er.
    replace (if Ascii.eqb x "{" then None else None) with (@None nat)
      by (by destruct (Ascii.eqb x "{")).
    cbn [Re.lazy_to_close]. by rewrite Ec, El, IH.
Qed.

Lemma sub_matched_no_pair_fuel n : forall s,
  String.length s <= n -> has_pair (Re.sub_matched_from 0 s) = false.
Proof.
  induction n as [|n IH]; intros [|x r] Hn; simpl in Hn; try done; [lia|].
  cbn [Re.sub_matched_from].
  destruct (Re.matched_bracket_pat (String x r)) as [m|] eqn:Em.
  - rewrite sub_matched_from_skip. apply IH.
    pose proof (length_slice_from (m - 1) r). lia.
  - cbn [has_pair]. rewrite IH by lia. rewrite orb_false_r.
    destruct (Ascii.eqb x "{") eqn:Ex; [|done]. simpl.
    apply bool_decide_eq_false. intros [k Hk].
    cbn [Re.matched_bracket_pat] in Em. rewrite Ex in Em.
    destruct (Re.lazy_to_close r) eqn:Er; [done|].
    by rewrite (lazy_to_close_sub_matched _ Er) in Hk.
Qed.




(** ** The indentation check *)

Lemma length_finditer_from c i s :
  length (Re.finditer_from (fun d => Ascii.eqb d c) i s) = count c s.
Proof.
  revert i. induction s as [|d s IH]; intros i; simpl; [done|].
  destruct (Ascii.eqb d c); simpl; by rewrite IH.
Qed.

Lemma fold_left_add {X} (ms : list X) d n :
  fold_left (fun acc _ => (acc + d)%Z) ms n = (n + d * Z.of_nat (length ms))%Z.
Proof.
  revert n. induction ms as [|m ms IH]; intros n; simpl; [lia|].
  rewrite IH. lia.
Qed.

Lemma for_matches_count c line d n :
  for_matches (fun x => Ascii.eqb x c) line d n
  = (n + d * Z.of_nat (count c line))%Z.
Proof.
  unfold for_matches, Re.finditer.
  by rewrite fold_left_add, length_finditer_from.
Qed.

Lemma truthy_spec s : truthy s = true <-> s <> "".
Proof. by destruct s. Qed.

Lemma length_repeat_char c n : String.length (repeat_char c n) = n.
Proof. induction n; simpl; congruence. Qed.

Lemma check_indentation_nonzero guide_lines indent :
  indent <> 0%Z ->
  check_indentation guide_lines indent
  = enum_for
      (check_indentation_line indent (if (indent <? 0)%Z then " "%char else "009"%char))
      0 guide_lines (IndentState 0 0 []).
Proof.
  intros H. unfold check_indentation. rewrite length_repeat_char.
  destruct (0 <? Z.abs_nat indent) eqn:E; [done|].
  apply Nat.ltb_ge in E. lia.
Qed.

(** The claim C5 places "otherwise" after the warning case, so that a
    line inside parentheses whose remainder is zero would be checked; the
    code checks a line only at parenthesis depth zero.  Here the third
    line is met at curly depth 1 and parenthesis depth 1 with no leading
    white space: the rule of the specification rejects it, the code
    accepts the unit. *)
Lemma check_indentation_claim_counterexample :
  let lines := ["{" +:+ nl; "    f(" +:+ nl; "x" +:+ nl] in
  let st := IndentState 1 1 [] in
  enum_for (check_indentation_line (-4) " ") 0 (take 2 lines) (IndentState 0 0 []) = Ok st
  /\ claimed_indentation_error (-4) st ("x" +:+ nl) = true
  /\ check_indentation_line (-4) " " 2 ("x" +:+ nl) st = Ok (IndentState 1 1 [])
  /\ check_indentation lines (-4) = Ok (IndentState 1 1 []).
Proof. vm_compute. repeat split; reflexivity. Qed.

(** C5 (amended).  With a nonzero unit width the pass runs the line rule
    over the guide lines from curly depth 0 and parenthesis depth 0, and
    the line rule is: a line met at a nonzero parenthesis depth is never
    an error, and is traced as a warning when its remainder is nonzero; a
    blank line is never an error; a non-blank line met at parenthesis
    depth zero raises the indentation error exactly when the projected
    depth (curly depth minus the closes of the line) is positive and
    differs from the level, or when the remainder is nonzero.  When the
    line is not an error the curly depth moves by opens minus closes and
    the parenthesis depth by open minus close parentheses. *)
Theorem check_indentation_line_rule (guide_lines : list string) (indent : Z)
    (i : nat) (line : string) (st : indent_state) :
  indent <> 0%Z ->
  let ws_char : ascii := if (indent <? 0)%Z then " "%char else "009"%char in
  let lws := Z.of_nat (String.length (Re.ws_pat_group0 ws_char line)) in
  let lws_level := (lws / Z.abs indent)%Z in
  let lws_remainder := (lws mod Z.abs indent)%Z in
  let projected := (curlies st - Z.of_nat (count "}" line))%Z in
  let next := IndentState
    (curlies st + Z.of_nat (count "{" line) - Z.of_nat (count "}" line))
    (parens st + Z.of_nat (count "(" line) - Z.of_nat (count ")" line)) in
  check_indentation guide_lines indent
  = enum_for (check_indentation_line indent ws_char) 0 guide_lines (IndentState 0 0 [])
  /\ (parens st <> 0%Z ->
      check_indentation_line indent ws_char i line st
      = Ok (next (if (lws_remainder =? 0)%Z then warnings st
                  else warnings st ++ [line])))
  /\ (parens st = 0%Z -> strip line = "" ->
      check_indentation_line indent ws_char i line st = Ok (next (warnings st)))
  /\ (parens st = 0%Z -> strip line <> "" ->
      ((0 < projected /\ lws_level <> projected)%Z \/ lws_remainder <> 0%Z ->
       check_indentation_line indent ws_char i line st
       = Raise (BadIndentation projected line))
      /\ (~ ((0 < projected /\ lws_level <> projected)%Z \/ lws_remainder <> 0%Z) ->
          check_indentation_line indent ws_char i line st
          = Ok (next (warnings st)))).
Proof.
  intros Hindent ws_char lws lws_level lws_remainder projected next.
  split; [by apply check_indentation_nonzero|].
  assert (Hnext : forall w,
    Ok (IndentState
          (for_matches Re.curly_pat2 line (-1)
             (for_matches Re.curly_pat1 line 1 (curlies st)))
          (for_matches Re.paren_pat2 line (-1)
             (for_matches Re.paren_pat1 line 1 (parens st))) w)
    = Ok (next w)).
  { intros w. unfold next, Re.curly_pat1, Re.curly_pat2, Re.paren_pat1, Re.paren_pat2.
    rewrite !for_matches_count. do 2 f_equal; lia. }
  assert (Hproj : for_matches Re.curly_pat2 line (-1) (curlies st) = projected).
  { unfold projected, Re.curly_pat2. rewrite for_matches_count. lia. }
  unfold check_indentation_line.
  fold lws. fold lws_level. fold lws_remainder. rewrite Hproj.
  split; [|split].
  - intros Hp. apply Z.eqb_neq in Hp. rewrite Hp. simpl.
    destruct (lws_remainder =? 0)%Z; simpl; apply Hnext.
  - intros Hp%Z.eqb_eq Hb. rewrite Hp, Hb. simpl. apply Hnext.
  - intros Hp%Z.eqb_eq Hb. apply truthy_spec in Hb. rewrite Hp, Hb. simpl. split.
    + intros H.
      replace ((0 <? projected)%Z && negb (lws_level =? projected)%Z
               || negb (lws_remainder =? 0)%Z) with true; [done|].
      symmetry. apply orb_true_iff.
      destruct H as [[H1 H2]|H]; [left|right].
      * apply andb_true_iff. split; [by apply Z.ltb_lt|].
        apply negb_true_iff. by apply Z.eqb_neq.
      * apply negb_true_iff. by apply Z.eqb_neq.
    + intros H.
      replace ((0 <? projected)%Z && negb (lws_level =? projected)%Z
               || negb (lws_remainder =? 0)%Z) with false; [simpl; apply Hnext|].
      symmetry. apply orb_false_iff. split.
      * apply andb_false_iff.
        destruct (0 <? projected)%Z eqn:E1; [right|by left].
        apply negb_false_iff, Z.eqb_eq. apply Z.ltb_lt in E1.
        destruct (decide (lws_level = projected)); [done|].
        exfalso. apply H. by left.
      * apply negb_false_iff, Z.eqb_eq.
        destruct (decide (lws_remainder = 0%Z)); [done|].
        exfalso. apply H. by right.
Qed.

Lemma check_indentation_line_rule_witness :
  check_indentation_line (-4) " " 2 ("    y" +:+ nl) (IndentState 2 0 [])
  = Raise (BadIndentation 2 ("    y" +:+ nl))
  /\ check_indentation_line (-4) " " 2 ("    y" +:+ nl) (IndentState 2 1 [])
     = Ok (IndentState 2 1 []).
Proof.
  assert (H : (-4)%Z <> 0%Z) by discriminate.
  split.
  - destruct (check_indentation_line_rule [] (-4) 2 ("    y" +:+ nl)
                (IndentState 2 0 []) H) as (_ & _ & _ & R).
    apply R; [reflexivity|discriminate|].
    left. split; [reflexivity|discriminate].
  - destruct (check_indentation_line_rule [] (-4) 2 ("    y" +:+ nl)
                (IndentState 2 1 []) H) as (_ & P & _).
    apply P. discriminate.
Defined.

(** ** Pass 3 on the examples of the specification *)

(** The claim C9 keeps the blank that replaces the open bracket of line
    0; the code strips the rewritten line, so the result line is
    ["if cond"] followed by the line terminator. *)
Lemma cross_line_example_counterexample :
  let lines := ["if cond {" +:+ nl; "    doThing()" +:+ nl; "}" +:+ nl] in
  check_brackets lines = Ok tt
  /\ check_indentation lines (-4) = Ok (IndentState 0 0 [])
  /\ remove_brackets lines lines
     <> Ok ["if cond " +:+ nl; "    doThing()" +:+ nl; nl].
Proof. vm_compute. repeat split; discriminate. Qed.

(** C9 (amended).  For the three-line unit, indented with spaces by a
    unit width of 4 ([indent = -4]), both checks pass and the remover
    blanks the brackets of lines 0 and 2 and strips each rewritten line:
    the result lines are ["if cond"], ["    doThing()"] and the empty
    line, each with its line terminator.  The driver produces them from
    the body of the node, and leaves the body as it was. *)
Theorem cross_line_example :
  let lines := ["if cond {" +:+ nl; "    doThing()" +:+ nl; "}" +:+ nl] in
  let st : gmap string string := {[ "n" := join lines ]} in
  check_brackets lines = Ok tt
  /\ check_indentation lines (-4) = Ok (IndentState 0 0 [])
  /\ remove_brackets lines lines
     = Ok ["if cond" +:+ nl; "    doThing()" +:+ nl; nl]
  /\ do_remove_brackets splitLines_LF guide_lines_plain (-4) "n" st
     = Ok (st, Some ["if cond" +:+ nl; "    doThing()" +:+ nl; nl]).
Proof. vm_compute. repeat split; reflexivity. Qed.

(** ** Pass 3 and the lines whose close is followed by a semicolon *)

Lemma semicolon_pat_contains line :
  Re.semicolon_pat line = true -> contains "}" line = true.
Proof.
  induction line as [|c r IH]; simpl; [done|].
  intros [[H _]%andb_true_iff|H]%orb_true_iff.
  - by rewrite H.
  - rewrite (IH H). apply orb_true_r.
Qed.

Lemma pass3_line_semicolon info gl lines i line rl real :
  Re.semicolon_pat line = true -> lines !! i = Some real ->
  pass3_line info gl lines i line rl = Ok (rl ++ [real]).
Proof.
  intros Hs Hl. unfold pass3_line, getitem.
  by rewrite (semicolon_pat_contains _ Hs), Hs, Hl.
Qed.

Lemma setitem_ok xs i x ys :
  setitem xs i x = Ok ys -> i < length xs /\ ys = <[i:=x]> xs.
Proof.
  unfold setitem. destruct (i <? length xs) eqn:E; [|done].
  apply Nat.ltb_lt in E. by intros [= <-].
Qed.

(** A slot of [result_lines] that no close of the line is paired with is
    left as it is by the loop over the closes of that line. *)
Lemma pass3_closes_keeps info gl lines ln j ms : forall rl out,
  pass3_closes info gl lines ln ms rl = Ok out ->
  j < length rl ->
  (forall m t, m ∈ ms -> info !! ("}", ln, m.2) = Some t -> t.1.2 <> j) ->
  out !! j = rl !! j /\ length rl <= length out.
Proof.
  induction ms as [|m ms IH]; intros rl out Hrun Hj Hinfo; simpl in Hrun.
  - by injection Hrun as <-.
  - destruct (info !! ("}", ln, m.2)) as [[[mc ml] mcol]|] eqn:E; [|done].
    assert (Hne : ml <> j).
    { apply (Hinfo m (mc, ml, mcol)); [apply list_elem_of_here|done]. }
    destruct (negb (String.eqb mc "{")); [done|].
    destruct (ml =? ln).
    + apply bind_ok in Hrun as (this & _ & [= <-]).
      rewrite lookup_app_l, length_app by done. split; [done|lia].
    + apply bind_ok in Hrun as (_ & _ & Hrun).
      apply bind_ok in Hrun as (s & _ & Hrun).
      apply bind_ok in Hrun as (rl1 & [Hlt ->]%setitem_ok & Hrun).
      apply bind_ok in Hrun as (s' & _ & Hrun).
      apply IH in Hrun as [H1 H2].
      * rewrite length_app, length_insert in H2.
        rewrite H1, lookup_app_l by (by rewrite length_insert).
        rewrite list_lookup_insert_ne by done. split; [done|lia].
      * rewrite length_app, length_insert. lia.
      * intros m' t Hin. apply Hinfo. by apply list_elem_of_further.
Qed.

Lemma pass3_line_keeps info gl lines ln line j rl out :
  pass3_line info gl lines ln line rl = Ok out ->
  j < length rl ->
  (forall c t, info !! ("}", ln, c) = Some t -> t.1.2 <> j) ->
  out !! j = rl !! j /\ length rl <= length out.
Proof.
  unfold pass3_line. intros Hrun Hj Hinfo.
  destruct (negb (contains "}" line)).
  { injection Hrun as <-. rewrite lookup_app_l, length_app by done.
    split; [done|lia]. }
  destruct (Re.semicolon_pat line).
  { apply bind_ok in Hrun as (this & _ & [= <-]).
    rewrite lookup_app_l, length_app by done. split; [done|lia]. }
  eapply pass3_closes_keeps; [done..|]. intros m t _. apply Hinfo.
Qed.

Lemma enum_for_pass3_keeps info gl lines j rest : forall i rl out,
  enum_for (pass3_line info gl lines) i rest rl = Ok out ->
  j < length rl ->
  (forall l c t, i <= l -> info !! ("}", l, c) = Some t -> t.1.2 <> j) ->
  out !! j = rl !! j.
Proof.
  induction rest as [|line rest IH]; intros i rl out Hrun Hj Hinfo; simpl in Hrun.
  - by injection Hrun as <-.
  - apply bind_ok in Hrun as (rl1 & Hstep & Hrun).
    apply (pass3_line_keeps _ _ _ _ _ j) in Hstep as [H1 H2]; [|done|].
    + rewrite <- H1. eapply IH; [done|lia|].
      intros l c t Hl. apply Hinfo. lia.
    + intros c t. by apply Hinfo.
Qed.

(** The claim C8 promises that the line is unmodified in the output.
    Here line 1 carries a close followed by a semicolon and also the open
    of the pair closed on line 2: the step for line 2 rewrites the line. *)
Lemma semicolon_guard_counterexample :
  let lines := ["a {" +:+ nl; "}; b {" +:+ nl; "}" +:+ nl] in
  check_brackets lines = Ok tt
  /\ check_indentation lines (-4) = Ok (IndentState 0 0 [])
  /\ Re.semicolon_pat ("}; b {" +:+ nl) = true
  /\ remove_brackets lines lines = Ok ["a {" +:+ nl; "}; b" +:+ nl; nl]
  /\ ["a {" +:+ nl; "}; b" +:+ nl; nl] !! 1 <> lines !! 1.
Proof. vm_compute. repeat split; discriminate. Qed.

(** C8 (amended).  When pass 3 reaches a guide line in which a close is
    followed, up to white space, by a semicolon, it makes no substitution
    for that line: it appends the real line unmodified and rewrites no
    earlier result line, wherever the matching open is.  The line stays
    unmodified in the final result provided no close of a later line is
    paired with a bracket whose line number is the slot the line took in
    the result. *)
Theorem semicolon_guard (guide_lines lines : list string) (k : nat)
    (line real : string) (st : pass1_state) (out : list string) :
  guide_lines !! k = Some line ->
  Re.semicolon_pat line = true ->
  lines !! k = Some real ->
  pass1 guide_lines = Ok st ->
  remove_brackets guide_lines lines = Ok out ->
  (forall rl, pass3_line (info st) guide_lines lines k line rl = Ok (rl ++ [real]))
  /\ exists before,
       enum_for (pass3_line (info st) guide_lines lines) 0 (take k guide_lines) []
       = Ok before
       /\ ((forall l c t, k < l -> info st !! ("}", l, c) = Some t ->
              t.1.2 <> length before) ->
           out !! length before = Some real).
Proof.
  intros Hk Hs Hl H1 Hout. split.
  { intros rl. by apply pass3_line_semicolon. }
  unfold remove_brackets in Hout. rewrite H1 in Hout. simpl in Hout.
  apply bind_ok in Hout as (_ & _ & Hout). unfold pass3 in Hout.
  rewrite <- (take_drop_middle _ _ _ Hk) in Hout at 2.
  rewrite enum_for_app in Hout.
  apply bind_ok in Hout as (before & Hbefore & Hout).
  exists before. split; [done|]. intros Hlater.
  simpl in Hout. rewrite length_take_le in Hout
    by (apply lookup_lt_Some in Hk; lia).
  rewrite (pass3_line_semicolon _ _ _ _ _ _ real) in Hout by done.
  simpl in Hout.
  apply (enum_for_pass3_keeps _ _ _ (length before)) in Hout.
  - rewrite Hout. by rewrite lookup_app_r, Nat.sub_diag by lia.
  - rewrite length_app. simpl. lia.
  - intros l c t Hle. apply Hlater. lia.
Qed.

Lemma semicolon_guard_witness :
  let lines := ["a {" +:+ nl; "};" +:+ nl] in
  let st := Pass1State []
    (<[("}", 1, 0) := ("{", 0, 2)]> (<[("{", 0, 2) := ("}", 1, 0)]> ∅)) 0 in
  (forall rl, pass3_line (info st) lines lines 1 ("};" +:+ nl) rl
              = Ok (rl ++ ["};" +:+ nl]))
  /\ lines !! 1 = Some ("};" +:+ nl).
Proof.
  intros lines st.
  destruct (semicolon_guard lines lines 1 ("};" +:+ nl) ("};" +:+ nl) st lines)
    as (Hstep & before & Hbefore & Hkeep);
    [reflexivity|reflexivity|reflexivity|vm_compute; reflexivity
    |vm_compute; reflexivity|].
  split; [exact Hstep|].
  vm_compute in Hbefore. injection Hbefore as <-.
  apply Hkeep. intros l c t Hl E. simpl in E.
  rewrite lookup_insert_ne in E by (intros [= <-]; lia).
  rewrite lookup_insert_ne in E by discriminate.
  discriminate E.
Defined.

(** ** Round trip *)

(** C3 fails on the code.  A close whose open is on an earlier line,
    followed on the same line by a same-line pair, makes the loop over
    the closes append the line twice: the unit below passes both checks,
    and the remover turns its two lines into three, with the content
    character [b] doubled.  And a line without a close is copied from the
    guide lines, not from the real lines, so the content a guide line
    masks (below, a comment) is lost. *)
Theorem round_trip_failure :
  let lines := ["a {" +:+ nl; "} b { }" +:+ nl] in
  let out := ["a" +:+ nl; "  b { }" +:+ nl; "} b { }" +:+ nl] in
  (check_brackets lines = Ok tt
   /\ check_indentation lines (-4) = Ok (IndentState 0 0 [])
   /\ remove_brackets lines lines = Ok out
   /\ length lines = 2 /\ length out = 3
   /\ ~ content_chars out ≡ₚ content_chars lines)
  /\ (remove_brackets ["x     " +:+ nl] ["x // y" +:+ nl] = Ok ["x     " +:+ nl]
      /\ ~ content_chars ["x     " +:+ nl] ≡ₚ content_chars ["x // y" +:+ nl]).
Proof.
  intros lines out. split.
  - split; [reflexivity|]. split; [reflexivity|].
    split; [vm_compute; reflexivity|]. split; [reflexivity|].
    split; [reflexivity|].
    intros H%Permutation_length. vm_compute in H. discriminate H.
  - split; [vm_compute; reflexivity|].
    intros H%Permutation_length. vm_compute in H. discriminate H.
Qed.

(** ** The batch handler *)

Section Batch.

Variable splitLines : string -> list string.
Variable make_guide_lines : list string -> list string.

Local Abbreviation do_remove_brackets := (do_remove_brackets splitLines make_guide_lines).
Local Abbreviation try_loop := (try_loop splitLines make_guide_lines).
Local Abbreviation after_read := (after_read splitLines make_guide_lines).

(** The driver returns the store it received. *)
Lemma do_remove_brackets_store indent p st r :
  do_remove_brackets indent p st = Ok r -> r.1 = st.
Proof.
  unfold IndentedTS.do_remove_brackets.
  destruct (negb (truthy _)); [by intros [= <-]|].
  destruct (negb (_ && _)); [done|].
  intros H. apply bind_ok in H as (? & _ & H).
  apply bind_ok in H as (? & _ & H).
  apply bind_ok in H as (? & _ & H). by injection H as <-.
Qed.

Lemma try_loop_store indent batch : forall seen st,
  (try_loop indent batch seen st).1 = st.
Proof.
  induction batch as [|p2 batch IH]; intros seen st; simpl; [done|].
  destruct (seen !! p2); [apply IH|].
  destruct (do_remove_brackets indent p2 st) as [r|e] eqn:E; [|done].
  rewrite IH. by eapply do_remove_brackets_store.
Qed.

(** Every vnode of the batch is backed up with the body of the root. *)
Lemma backup_lookup st p batch : forall m,
  (forall s, m !! KStr s = None) ->
  let bd := fold_left (backup_step st p) batch m in
  (forall s, bd !! KStr s = None)
  /\ (forall v, bd !! KVNode v
        = if decide (v ∈ batch) then Some (body st p) else m !! KVNode v).
Proof.
  induction batch as [|p2 batch IH]; intros m Hm; simpl.
  - split; [done|]. intros v.
    destruct (decide (v ∈ [])) as [H|H]; [by apply elem_of_nil in H|done].
  - unfold backup_step at 2 4. rewrite Hm.
    destruct (IH (<[KVNode p2 := body st p]> m)) as [H1 H2].
    { intros s. by rewrite lookup_insert_ne. }
    split; [done|]. intros v. rewrite H2.
    destruct (decide (v ∈ batch)) as [Hin|Hnin].
    + rewrite decide_True; [done|]. by apply list_elem_of_further.
    + destruct (decide (v = p2)) as [->|Hne].
      * rewrite decide_True by apply list_elem_of_here.
        by rewrite lookup_insert_eq.
      * rewrite decide_False.
        -- rewrite lookup_insert_ne; [done|]. by intros [= ->].
        -- by intros [->|?]%elem_of_cons.
Qed.

Lemma restore_lookup bd st v :
  restore bd st !! v
  = match bd !! KVNode v with Some b => Some b | None => st !! v end.
Proof.
  unfold restore. revert v.
  apply (map_fold_weak_ind (fun r m => forall v,
    r !! v = match m !! KVNode v with Some b => Some b | None => st !! v end)).
  - intros v. by rewrite lookup_empty.
  - intros [u|s] x m r Hnone IH v.
    + destruct (decide (u = v)) as [->|Hne].
      * by rewrite !lookup_insert_eq.
      * rewrite !lookup_insert_ne; [apply IH| |done]. by intros [= ->].
    + rewrite lookup_insert_ne by done. apply IH.
Qed.

(** When the batch succeeds, no body has changed. *)
Lemma after_read_success_store scanned p subtree st st' :
  after_read scanned p subtree st = (st', None) -> st' = st.
Proof.
  unfold IndentedTS.after_read.
  pose proof (try_loop_store (indent_of scanned) (p :: subtree) ∅ st) as H.
  destruct (try_loop _ _ _ _) as [st1 [e|]]; simpl in H; [done|].
  intros [= <-]. done.
Qed.

(** When a node of the batch fails, every node of the batch receives the
    body of the root; the nodes outside the batch keep theirs. *)
Lemma after_read_failure_store scanned p subtree st st' e :
  after_read scanned p subtree st = (st', Some e) ->
  (forall v, v ∈ p :: subtree -> body st' v = body st p)
  /\ (forall v, v ∉ p :: subtree -> st' !! v = st !! v).
Proof.
  unfold IndentedTS.after_read.
  pose proof (try_loop_store (indent_of scanned) (p :: subtree) ∅ st) as H.
  destruct (try_loop _ _ _ _) as [st1 [e1|]]; simpl in H; [|done].
  subst st1. intros [= <- <-].
  destruct (backup_lookup st p (p :: subtree) ∅) as [_ Hb].
  { intros s. apply lookup_empty. }
  fold (backup st p (p :: subtree)) in Hb.
  split; intros v Hv; unfold body; rewrite ?restore_lookup, Hb.
  - by rewrite decide_True.
  - rewrite decide_False by done. by rewrite lookup_empty.
Qed.

End Batch.

(** C1 fails on the code.  The backup loop stores the body of the root
    ([p.b]) under every vnode of the batch, so the rollback overwrites
    every node of the batch with the body of the root.  Below the root
    and its first child are processed without error, the second child has
    an open bracket without a close: after the call both children hold
    the body of the root, not their own. *)
Theorem atomicity_failure :
  let st : gmap string string :=
    <["root" := "x" +:+ nl]> (<["c1" := "y" +:+ nl]> (<["c2" := "a {" +:+ nl]> ∅)) in
  let r := after_read splitLines_LF guide_lines_plain None "root" ["c1"; "c2"] st in
  r.2 = Some UnmatchedBrackets
  /\ body st "c1" = "y" +:+ nl /\ body r.1 "c1" = "x" +:+ nl
  /\ body st "c2" = "a {" +:+ nl /\ body r.1 "c2" = "x" +:+ nl.
Proof. vm_compute. repeat split; reflexivity. Qed.

(** C2 fails on the code.  Neither [do_remove_brackets] nor
    [remove_brackets] assigns the result lines to the body of the node:
    the unit below passes every step, the remover produces new lines, and
    the body of the node after the batch is the body it had before. *)
Theorem commit_missing :
  let lines := ["if cond {" +:+ nl; "    doThing()" +:+ nl; "}" +:+ nl] in
  let out := ["if cond" +:+ nl; "    doThing()" +:+ nl; nl] in
  let st : gmap string string := {[ "n" := join lines ]} in
  let r := after_read splitLines_LF guide_lines_plain (Some (-4)%Z) "n" [] st in
  do_remove_brackets splitLines_LF guide_lines_plain (-4) "n" st = Ok (st, Some out)
  /\ r.2 = None
  /\ body r.1 "n" = join lines
  /\ body r.1 "n" <> join out.
Proof. vm_compute. repeat split; discriminate. Qed.

(** ** The unit width *)

(** The claim C7 makes a zero or negative width an error raised before
    any unit is processed.  The handler accepts both: a negative width
    selects spaces, and a zero width is replaced by the default. *)
Lemma unit_width_counterexample :
  let st : gmap string string := {[ "n" := "x" +:+ nl ]} in
  (-4 <= 0)%Z
  /\ after_read splitLines_LF guide_lines_plain (Some (-4)%Z) "n" [] st = (st, None)
  /\ after_read splitLines_LF guide_lines_plain (Some 0%Z) "n" [] st = (st, None).
Proof. vm_compute. repeat split; discriminate. Qed.

(** C7 (amended).  A zero width is never handed to the validators by the
    batch handler: a zero or absent scanned width is replaced by the
    default [-4] before any unit is processed, and the batch then runs as
    with [-4].  A negative width is not an error: the indentation
    character is the space and the pass runs the line rule over the
    lines.  Called with a zero width, [check_indentation] fails its entry
    assertion before it examines any line. *)
Theorem unit_width_handling (splitLines : string -> list string)
    (make_guide_lines : list string -> list string)
    (scanned : option Z) (p : string) (subtree : list string)
    (st : gmap string string) (guide_lines : list string) (indent : Z) :
  indent_of scanned <> 0%Z
  /\ after_read splitLines make_guide_lines (Some 0%Z) p subtree st
     = after_read splitLines make_guide_lines (Some (-4)%Z) p subtree st
  /\ after_read splitLines make_guide_lines None p subtree st
     = after_read splitLines make_guide_lines (Some (-4)%Z) p subtree st
  /\ check_indentation guide_lines 0
     = Raise (AssertionFailed "check_indentation: can not happen: indent_n")
  /\ ((indent < 0)%Z ->
      check_indentation guide_lines indent
      = enum_for (check_indentation_line indent " ") 0 guide_lines
          (IndentState 0 0 [])).
Proof.
  split; [|split; [|split; [|split]]]; try reflexivity.
  - destruct scanned as [w|]; simpl; [|done].
    destruct (w =? 0)%Z eqn:E; [done|]. by apply Z.eqb_neq.
  - intros H. rewrite check_indentation_nonzero by lia.
    apply Z.ltb_lt in H. by rewrite H.
Qed.

Lemma unit_width_handling_witness :
  check_indentation ["if cond {" +:+ nl; "    doThing()" +:+ nl; "}" +:+ nl] (-4)
  = enum_for (check_indentation_line (-4) " ") 0
      ["if cond {" +:+ nl; "    doThing()" +:+ nl; "}" +:+ nl] (IndentState 0 0 []).
Proof.
  apply (unit_width_handling splitLines_LF guide_lines_plain None "n" [] ∅
           ["if cond {" +:+ nl; "    doThing()" +:+ nl; "}" +:+ nl] (-4)).
  reflexivity.
Defined.

(** * Further properties of the plugin *)

(** ** Where the bracket tokens are *)

Lemma finditer_from_elem p i s m :
  m ∈ Re.finditer_from p i s <->
  exists k c, String.get k s = Some c /\ p c = true
              /\ m = (String c EmptyString, i + k).
Proof.
  revert i. induction s as [|d r IH]; intros i; simpl.
  - split; [by intros ?%elem_of_nil|]. by intros (k & c & H & _).
  - assert (Hrest : m ∈ Re.finditer_from p (S i) r <->
                    exists k c, String.get (S k) (String d r) = Some c
                                /\ p c = true /\ m = (String c EmptyString, i + S k)).
    { rewrite IH. simpl.
      split; intros (k & c & H1 & H2 & ->); exists k, c;
        (split; [done|split; [done|f_equal; lia]]). }
    destruct (p d) eqn:Ed.
    + rewrite elem_of_cons, Hrest. split.
      * intros [->|(k & c & H)].
        -- exists 0, d. by rewrite Nat.add_0_r.
        -- by exists (S k), c.
      * intros ([|k] & c & H1 & H2 & ->).
        -- left. injection H1 as <-. by rewrite Nat.add_0_r.
        -- right. by exists k, c.
    + rewrite Hrest. split.
      * intros (k & c & H). by exists (S k), c.
      * intros ([|k] & c & H1 & H2 & ->).
        -- injection H1 as <-. congruence.
        -- by exists k, c.
Qed.

Lemma tokens_from_elem gl : forall i t,
  t ∈ tokens_from i gl <->
  exists j line c,
    gl !! j = Some line /\ t.1.2 = i + j /\ String.get t.2 line = Some c
    /\ Re.curly_pat c = true /\ t.1.1 = String c EmptyString.
Proof.
  induction gl as [|l gl IH]; intros i t; simpl.
  - split; [by intros ?%elem_of_nil|]. by intros (j & line & c & H & _).
  - rewrite elem_of_app, IH. unfold line_tokens.
    rewrite list_elem_of_fmap. split.
    + intros [(m & -> & Hm)|(j & line & c & H1 & H2 & H3 & H4 & H5)].
      * apply finditer_from_elem in Hm as (k & c & Hk & Hc & ->). simpl.
        exists 0, l, c. rewrite Nat.add_0_r. done.
      * exists (S j), line, c. repeat split; try done. lia.
    + intros ([|j] & line & c & H1 & H2 & H3 & H4 & H5).
      * left. injection H1 as <-. exists (String c EmptyString, t.2).
        destruct t as [[tc tl] tk]. simpl in *. subst.
        split; [f_equal; f_equal; lia|].
        apply finditer_from_elem. by exists tk, c.
      * right. exists j, line, c. repeat split; try done. lia.
Qed.


(** ** Pass 1 accepts exactly the balanced units *)

Lemma is_open_eqb t :
  is_open t -> String.eqb t.1.1 "{" = true /\ String.eqb t.1.1 "}" = false.
Proof. unfold is_open. by intros ->. Qed.

Lemma is_close_eqb t :
  is_close t -> String.eqb t.1.1 "{" = false /\ String.eqb t.1.1 "}" = true.
Proof. unfold is_close. by intros ->. Qed.

(** The scan from a state whose stack holds opens: it succeeds when no
    prefix has more closes than the stack and the opens of the prefix can
    serve, and it fails, with a stack underflow, at the first prefix that
    has. *)
Lemma for_in_pass1_depth ts : forall st,
  (forall t, t ∈ stack st -> is_open t) ->
  (forall t, t ∈ ts -> is_open t \/ is_close t) ->
  match for_in pass1_token ts st with
  | Ok st' =>
      (forall k, count_tokens "}" (take k ts)
                 <= length (stack st) + count_tokens "{" (take k ts))
      /\ length (stack st') + count_tokens "}" ts
         = length (stack st) + count_tokens "{" ts
      /\ (level st' = level st + Z.of_nat (count_tokens "{" ts)
                      - Z.of_nat (count_tokens "}" ts))%Z
  | Raise e =>
      e = StackUnderflow
      /\ exists k, length (stack st) + count_tokens "{" (take k ts)
                   < count_tokens "}" (take k ts)
  end.
Proof.
  induction ts as [|t ts IH]; intros st Hst Hk.
  - simpl. split; [|split; lia]. intros k. rewrite take_nil. simpl. lia.
  - assert (Ht : is_open t \/ is_close t) by apply Hk, list_elem_of_here.
    assert (Hk' : forall s, s ∈ ts -> is_open s \/ is_close s).
    { intros s Hs. apply Hk. by apply list_elem_of_further. }
    cbn [for_in]. destruct Ht as [Ho|Hc].
    + rewrite pass1_token_open by done. cbn [bind].
      destruct (is_open_eqb _ Ho) as [E1 E2].
      specialize (IH (Pass1State (t :: stack st) (info st) (level st + 1))).
      cbn [stack level] in IH.
      destruct (for_in pass1_token ts _) as [st'|e].
      * destruct IH as (H1 & H2 & H3); [|done|].
        { intros s [->|Hs]%elem_of_cons; [done|by apply Hst]. }
        cbn [count_tokens]. rewrite E1, E2. cbn [length] in *.
        split; [|split; lia].
        intros [|k]; cbn [take count_tokens]; [lia|].
        rewrite E1, E2. specialize (H1 k). lia.
      * destruct IH as (-> & k & H1); [|done|].
        { intros s [->|Hs]%elem_of_cons; [done|by apply Hst]. }
        split; [done|]. exists (S k). cbn [take count_tokens].
        rewrite E1, E2. cbn [length] in H1. lia.
    + rewrite pass1_token_close by done.
      destruct (is_close_eqb _ Hc) as [E1 E2].
      destruct (stack st) as [|top stack'] eqn:Es.
      * cbn [bind]. split; [done|]. exists 1. cbn [take count_tokens].
        rewrite take_0, E1, E2. simpl. lia.
      * assert (Htop : is_open top) by (apply Hst; apply list_elem_of_here).
        destruct (is_open_eqb _ Htop) as [T1 _]. rewrite T1. cbn [negb bind].
        specialize (IH (Pass1State stack'
          (<[t := top]> (<[top := t]> (info st))) (level st - 1))).
        cbn [stack level] in IH.
        destruct (for_in pass1_token ts _) as [st'|e].
        -- destruct IH as (H1 & H2 & H3); [|done|].
           { intros s Hs. apply Hst. by apply list_elem_of_further. }
           cbn [count_tokens]. rewrite E1, E2. cbn [length] in *.
           split; [|split; lia].
           intros [|k]; cbn [take count_tokens]; [lia|].
           rewrite E1, E2. specialize (H1 k). lia.
        -- destruct IH as (-> & k & H1); [|done|].
           { intros s Hs. apply Hst. by apply list_elem_of_further. }
           split; [done|]. exists (S k). cbn [take count_tokens].
           rewrite E1, E2. cbn [length]. lia.
Qed.

(** X2.  Pass 1 returns exactly when the brackets of the unit are
    balanced: no prefix of the token sequence has more closes than opens,
    and the whole sequence has as many closes as opens.  It raises "stack
    underflow" exactly when some prefix has more closes than opens, and
    "unmatch brackets" exactly when no prefix has but opens are left
    over.  Its assertions never fail. *)
Theorem pass1_balanced (guide_lines : list string) :
  let ts := tokens guide_lines in
  let closes_covered :=
    forall k, count_tokens "}" (take k ts) <= count_tokens "{" (take k ts) in
  ((exists st, pass1 guide_lines = Ok st) <->
   closes_covered /\ count_tokens "{" ts = count_tokens "}" ts)
  /\ (pass1 guide_lines = Raise StackUnderflow <-> ~ closes_covered)
  /\ (pass1 guide_lines = Raise UnmatchedBrackets <->
      closes_covered /\ count_tokens "}" ts < count_tokens "{" ts)
  /\ (forall e, pass1 guide_lines = Raise e ->
        e = StackUnderflow \/ e = UnmatchedBrackets).
Proof.
  intros ts closes_covered.
  pose proof (for_in_pass1_depth ts (Pass1State [] ∅ 0)) as H.
  rewrite pass1_scan. fold ts. unfold scan.
  destruct (for_in pass1_token ts _) as [st'|e] eqn:E; cbn [stack level length] in H.
  - destruct H as (H1 & H2 & H3).
    { by intros t ?%elem_of_nil. } { apply tokens_kind. }
    assert (Hc : closes_covered) by (intros k; specialize (H1 k); lia).
    cbn [bind].
    destruct (level st' =? 0)%Z eqn:El; cbn [negb].
    + apply Z.eqb_eq in El. split; [|split; [|split]].
      * split; [intros _; split; [done|lia]|intros _; by exists st'].
      * split; [done|]. intros Hn. by destruct Hn.
      * split; [done|]. intros [_ ?]. lia.
      * done.
    + apply Z.eqb_neq in El. split; [|split; [|split]].
      * split; [by intros [? ?]|]. intros [_ ?]. lia.
      * split; [done|]. intros Hn. by destruct Hn.
      * split; [|done]. intros _. split; [done|]. lia.
      * intros e [= <-]. by right.
  - destruct H as (-> & k & H1).
    { by intros t ?%elem_of_nil. } { apply tokens_kind. }
    assert (Hc : ~ closes_covered).
    { intros Hc. specialize (Hc k). lia. }
    cbn [bind]. split; [|split; [|split]].
    + split; [by intros [? ?]|]. intros [Hc' _]. by destruct Hc.
    + done.
    + split; [done|]. intros [Hc' _]. by destruct Hc.
    + intros e [= <-]. by left.
Qed.

(** ** The open of a pair lies before its close *)

Lemma finditer_from_sorted p i s :
  StronglySorted (fun a b : string * nat => a.2 < b.2) (Re.finditer_from p i s).
Proof.
  revert i. induction s as [|c r IH]; intros i; simpl; [constructor|].
  destruct (p c); [|apply IH].
  apply SSorted_cons; [apply IH|]. apply Forall_forall. intros m Hm.
  apply finditer_from_ge in Hm. simpl. lia.
Qed.

Lemma tokens_from_sorted gl : forall i, StronglySorted pos_lt (tokens_from i gl).
Proof.
  induction gl as [|l gl IH]; intros i; simpl; [constructor|].
  apply StronglySorted_app_2; [| |apply IH].
  - intros a b Ha Hb. apply line_tokens_spec in Ha as [Ha _].
    apply tokens_from_line in Hb as [Hb _]. left. lia.
  - unfold line_tokens.
    apply (StronglySorted_fmap _ (fun a b : string * nat => a.2 < b.2));
      [|apply finditer_from_sorted].
    intros a b Hab. right. done.
Qed.

Lemma pos_lt_irrefl t : ~ pos_lt t t.
Proof. unfold pos_lt. lia. Qed.

Lemma sorted_NoDup (ts : list token) : StronglySorted pos_lt ts -> NoDup ts.
Proof.
  induction 1 as [|t ts Hs IH Hall]; constructor; [|done].
  intros Hin. rewrite Forall_forall in Hall.
  apply Hall in Hin. by apply pos_lt_irrefl in Hin.
Qed.

Lemma scan_order ts : forall seen st st',
  pass1_inv seen st -> StronglySorted pos_lt (seen ++ ts) ->
  (forall t, t ∈ ts -> is_open t \/ is_close t) ->
  (forall a c, info st !! a = Some c -> is_close a -> pos_lt c a) ->
  for_in pass1_token ts st = Ok st' ->
  forall a c, info st' !! a = Some c -> is_close a -> pos_lt c a.
Proof.
  induction ts as [|t ts IH]; intros seen st st' Hinv Hs Hk Hord Hrun.
  - by injection Hrun as <-.
  - simpl in Hrun. apply bind_ok in Hrun as (st1 & Hstep & Hrun).
    assert (Hfresh : t ∉ seen).
    { intros Hin. apply (pos_lt_irrefl t).
      eapply (StronglySorted_app_1_elem_of _ _ _ _ _ Hs); [done|].
      apply list_elem_of_here. }
    assert (Ht : is_open t \/ is_close t) by apply Hk, list_elem_of_here.
    assert (Hs' : StronglySorted pos_lt ((seen ++ [t]) ++ ts))
      by (by rewrite <- app_assoc).
    apply (IH (seen ++ [t]) st1); [by eapply pass1_inv_step|done| | |done].
    { intros s Hin. apply Hk. by apply list_elem_of_further. }
    destruct Ht as [Ho|Hc].
    + rewrite pass1_token_open in Hstep by done. by injection Hstep as <-.
    + rewrite pass1_token_close in Hstep by done.
      destruct (stack st) as [|top stack'] eqn:Es; [done|].
      destruct (negb _); [done|]. injection Hstep as <-. cbn [info].
      destruct (inv_stack _ _ Hinv top) as (Htop & Hopen & _).
      { rewrite Es. apply list_elem_of_here. }
      intros a c E Ha.
      destruct (decide (t = a)) as [<-|Hne].
      { rewrite lookup_insert_eq in E. injection E as <-.
        eapply (StronglySorted_app_1_elem_of _ _ _ _ _ Hs); [done|].
        apply list_elem_of_here. }
      rewrite lookup_insert_ne in E by done.
      destruct (decide (top = a)) as [<-|Hne'].
      { unfold is_open, is_close in *. congruence. }
      rewrite lookup_insert_ne in E by done. by apply Hord.
Qed.

(** X3.  When pass 1 returns, the two brackets of every pair stand in
    text order: the open lies before the close it is paired with, on an
    earlier line or earlier on the same line. *)
Theorem paired_open_before_close (guide_lines : list string)
    (st : pass1_state) (a b : token) :
  pass1 guide_lines = Ok st ->
  info st !! a = Some b ->
  (is_open a -> pos_lt a b) /\ (is_close a -> pos_lt b a).
Proof.
  intros Hok E.
  destruct (pass1_ok_inv _ _ Hok) as [Hinv _].
  assert (Hord : forall x y, info st !! x = Some y -> is_close x -> pos_lt y x).
  { rewrite pass1_scan in Hok. apply bind_ok in Hok as (st1 & Hs & Ht).
    destruct (negb _); [done|]. injection Ht as <-.
    apply (scan_order (tokens guide_lines) [] _ st1 pass1_inv_init);
      simpl; [apply tokens_from_sorted|apply tokens_kind| |done].
    intros x y Hxy. by rewrite lookup_empty in Hxy. }
  split; [|by apply Hord].
  intros Ho. apply (Hord b a); [by apply (inv_sym _ _ Hinv)|].
  destruct (inv_kinds _ _ Hinv _ _ E) as [_ [[_ ?]|[Hc _]]]; [done|].
  unfold is_open, is_close in *. congruence.
Qed.

Lemma paired_open_before_close_witness :
  let st := Pass1State []
    (<[("}", 1, 0) := ("{", 0, 2)]> (<[("{", 0, 2) := ("}", 1, 0)]> ∅)) 0 in
  pos_lt ("{", 0, 2) ("}", 1, 0).
Proof.
  intros st.
  apply (paired_open_before_close ["a {"; "}"] st ("{", 0, 2) ("}", 1, 0));
    [vm_compute; reflexivity|vm_compute; reflexivity|reflexivity].
Defined.

(** ** Pass 3 cannot fail after pass 1 *)

Lemma pass1_ok_order gl st a c :
  pass1 gl = Ok st -> info st !! a = Some c -> is_close a -> pos_lt c a.
Proof.
  intros Hok. rewrite pass1_scan in Hok.
  apply bind_ok in Hok as (st1 & Hs & Ht).
  destruct (negb _); [done|]. injection Ht as <-.
  apply (scan_order (tokens gl) [] _ st1 pass1_inv_init);
    simpl; [apply tokens_from_sorted|apply tokens_kind| |done].
  intros x y Hxy. by rewrite lookup_empty in Hxy.
Qed.

Lemma pass1_closes_paired gl st :
  pass1 gl = Ok st -> closes_paired (info st) gl.
Proof.
  intros Hok k line m Hk Hm.
  apply finditer_from_elem in Hm as (col & c & Hget & Hc & ->).
  apply Ascii.eqb_eq in Hc. subst c. simpl.
  assert (Ht : ("}", k, col) ∈ tokens gl).
  { apply tokens_from_elem. exists k, line, "}"%char. by repeat split. }
  destruct (pass1_ok_total _ _ _ Hok Ht) as [[[tc ml] mcol] E].
  destruct (pass1_ok_inv _ _ Hok) as [Hinv _].
  assert (Hopen : tc = "{").
  { destruct (inv_kinds _ _ Hinv _ _ E) as [_ [[H _]|[_ H]]]; [done|exact H]. }
  subst tc. exists ml, mcol. split; [done|].
  pose proof (pass1_ok_order _ _ _ _ Hok E eq_refl) as [H|[H _]]; simpl in H; lia.
Qed.

Lemma pass2_no_matching_info_unreachable_aux gl st :
  pass1 gl = Ok st ->
  (forall t, t ∈ tokens gl -> is_Some (info st !! t))
  /\ pass2 (info st) gl = Ok tt.
Proof.
  intros Hok. split.
  - intros t Ht. by eapply pass1_ok_total.
  - unfold pass2. rewrite enum_for_pass2. apply for_in_pass2_ok.
    intros t Ht. by eapply pass1_ok_total.
Qed.

Lemma contains_count c s : contains c s = true -> 0 < count c s.
Proof.
  induction s as [|d r IH]; simpl; [done|].
  destruct (Ascii.eqb d c); simpl; [lia|]. apply IH.
Qed.

Lemma getitem_lt xs i : i < length xs -> exists x, getitem xs i = Ok x.
Proof.
  intros H. unfold getitem.
  destruct (lookup_lt_is_Some_2 xs i H) as [x ->]. by exists x.
Qed.

Lemma pass3_closes_total info gl lines i ms : forall rl,
  (forall m, m ∈ ms ->
     exists ml mcol, info !! ("}", i, m.2) = Some ("{", ml, mcol) /\ ml <= i) ->
  i <= length rl -> i < length lines -> i < length gl ->
  exists out, pass3_closes info gl lines i ms rl = Ok out
              /\ length rl <= length out
              /\ (ms <> [] -> S (length rl) <= length out).
Proof.
  induction ms as [|m ms IH]; intros rl Hm Hrl Hl Hg; simpl.
  - exists rl. split; [done|]. split; [lia|done].
  - destruct (Hm m) as (ml & mcol & E & Hle); [apply list_elem_of_here|].
    rewrite E. simpl. destruct (ml =? i) eqn:Ei.
    + destruct (getitem_lt lines i Hl) as [this ->]. simpl.
      exists (rl ++ [this]). rewrite length_app. simpl.
      split; [done|]. split; lia.
    + apply Nat.eqb_neq in Ei.
      destruct (getitem_lt gl ml) as [g ->]; [lia|].
      destruct (getitem_lt lines ml) as [s ->]; [lia|]. simpl.
      unfold setitem. replace (ml <? length rl) with true
        by (symmetry; apply Nat.ltb_lt; lia).
      simpl. destruct (getitem_lt lines i Hl) as [s' ->]. simpl.
      destruct (IH (<[ml:=tidy (blank_at mcol s)]> rl
                    ++ [tidy (blank_at m.2 s')])) as (out & -> & H1 & _).
      * intros m' Hm'. apply Hm. by apply list_elem_of_further.
      * rewrite length_app, length_insert. lia.
      * done.
      * done.
      * rewrite length_app, length_insert in H1. simpl in H1.
        exists out. split; [done|]. split; lia.
Qed.

Lemma pass3_line_total info gl lines i line rl :
  closes_paired info gl -> gl !! i = Some line ->
  i <= length rl -> i < length lines ->
  exists out, pass3_line info gl lines i line rl = Ok out
              /\ S (length rl) <= length out.
Proof.
  intros Hp Hi Hrl Hl. unfold pass3_line.
  destruct (contains "}" line) eqn:Ec; simpl.
  - destruct (Re.semicolon_pat line).
    + destruct (getitem_lt lines i Hl) as [this ->]. simpl.
      exists (rl ++ [this]). rewrite length_app. simpl. split; [done|lia].
    + destruct (pass3_closes_total info gl lines i
                  (Re.finditer Re.curly_pat2 line) rl) as (out & -> & _ & H).
      * intros m Hm. by apply (Hp i line).
      * done.
      * done.
      * by apply lookup_lt_Some in Hi.
      * exists out. split; [done|]. apply H. intros E.
        apply contains_count in Ec.
        rewrite <- (length_finditer_from "}" 0) in Ec.
        unfold Re.finditer, Re.curly_pat2 in E. rewrite E in Ec.
        simpl in Ec. lia.
  - exists (rl ++ [line]). rewrite length_app. simpl. split; [done|lia].
Qed.

Lemma enum_for_pass3_total info gl lines rest : forall i rl,
  closes_paired info gl ->
  (forall j line, rest !! j = Some line -> gl !! (i + j) = Some line) ->
  i <= length rl -> i + length rest <= length lines ->
  exists out, enum_for (pass3_line info gl lines) i rest rl = Ok out
              /\ i + length rest <= length out.
Proof.
  induction rest as [|line rest IH]; intros i rl Hp Hsuf Hrl Hl; simpl.
  - exists rl. split; [done|lia].
  - destruct (pass3_line_total info gl lines i line rl) as (rl1 & -> & H1);
      [done| |done|simpl in Hl; lia|].
    { specialize (Hsuf 0 line eq_refl). by rewrite Nat.add_0_r in Hsuf. }
    simpl. destruct (IH (S i) rl1) as (out & -> & H2); [done| |lia| |].
    + intros j l Hj. specialize (Hsuf (S j) l Hj).
      by replace (S i + j) with (i + S j) by lia.
    + simpl in Hl. lia.
    + exists out. split; [done|]. simpl. lia.
Qed.

Lemma remove_brackets_runs gl lines st :
  length lines = length gl -> pass1 gl = Ok st ->
  exists out, remove_brackets gl lines = Ok out /\ length gl <= length out.
Proof.
  intros Hlen Hok. unfold remove_brackets. rewrite Hok. simpl.
  destruct (pass2_no_matching_info_unreachable_aux _ _ Hok) as [_ ->]. simpl.
  destruct (enum_for_pass3_total (info st) gl lines gl 0 [])
    as (out & H1 & H2); [by apply pass1_closes_paired|done|simpl; lia|lia|].
  exists out. split; [exact H1|exact H2].
Qed.

Lemma remove_brackets_errors gl lines e :
  length lines = length gl -> remove_brackets gl lines = Raise e ->
  e = StackUnderflow \/ e = UnmatchedBrackets.
Proof.
  intros Hlen He. destruct (pass1 gl) as [st|e1] eqn:E1.
  - destruct (remove_brackets_runs gl lines st Hlen E1) as (out & Hout & _).
    congruence.
  - unfold remove_brackets in He. rewrite E1 in He. simpl in He.
    injection He as <-. by apply (pass1_errors gl).
Qed.

(** X4.  With as many lines as guide lines, [remove_brackets] returns
    exactly when pass 1 does, and its result has at least as many lines
    as the unit: the key lookups, the index operations and the assertions
    of passes 2 and 3 never fail, so the only errors of the function are
    "stack underflow" and "unmatch brackets". *)
Theorem remove_brackets_total (guide_lines lines : list string) :
  length lines = length guide_lines ->
  ((exists out, remove_brackets guide_lines lines = Ok out) <->
   (exists st, pass1 guide_lines = Ok st))
  /\ (forall out, remove_brackets guide_lines lines = Ok out ->
        length guide_lines <= length out)
  /\ (forall e, remove_brackets guide_lines lines = Raise e ->
        e = StackUnderflow \/ e = UnmatchedBrackets).
Proof.
  intros Hlen.
  destruct (pass1 guide_lines) as [st|e1] eqn:E1.
  - destruct (remove_brackets_runs _ lines _ Hlen E1) as (out & Hout & Hlen').
    split; [|split].
    + split; intros _; [by exists st|by exists out].
    + intros out' Hout'. congruence.
    + intros e He. congruence.
  - split; [|split].
    + split; [|by intros [x Hx]]. intros [x Hx].
      unfold remove_brackets in Hx. by rewrite E1 in Hx.
    + intros out Hout. unfold remove_brackets in Hout. by rewrite E1 in Hout.
    + intros e He. by apply (remove_brackets_errors guide_lines lines).
Qed.

Lemma remove_brackets_total_witness :
  (exists out, remove_brackets ["a {"; "b"; "}"] ["a {"; "b"; "}"] = Ok out)
  /\ (forall e, remove_brackets ["a {"] ["a {"] = Raise e ->
        e = StackUnderflow \/ e = UnmatchedBrackets).
Proof.
  destruct (remove_brackets_total ["a {"; "b"; "}"] ["a {"; "b"; "}"] eq_refl)
    as [H _].
  destruct (remove_brackets_total ["a {"] ["a {"] eq_refl) as (_ & _ & E).
  split; [|exact E].
  apply H.
  exists (Pass1State []
    (<[("}", 2, 0) := ("{", 0, 2)]> (<[("{", 0, 2) := ("}", 2, 0)]> ∅)) 0).
  vm_compute. reflexivity.
Defined.

(** ** The errors of the batch handler *)



Section BatchErrors.

Variable splitLines : string -> list string.
Variable make_guide_lines : list string -> list string.

(** The contracts of the two collaborators: a body that is not blank has
    at least one line, and there is one guide line per line. *)
Hypothesis splitLines_nonempty :
  forall s, strip s <> "" -> splitLines s <> [].
Hypothesis make_guide_lines_length :
  forall lines, length (make_guide_lines lines) = length lines.

Local Abbreviation do_remove_brackets := (do_remove_brackets splitLines make_guide_lines).
Local Abbreviation try_loop := (try_loop splitLines make_guide_lines).
Local Abbreviation after_read := (after_read splitLines make_guide_lines).


End BatchErrors.

Section BatchOrder.

Variable splitLines : string -> list string.
Variable make_guide_lines : list string -> list string.

Local Abbreviation do_remove_brackets := (do_remove_brackets splitLines make_guide_lines).
Local Abbreviation try_loop := (try_loop splitLines make_guide_lines).
Local Abbreviation after_read := (after_read splitLines make_guide_lines).

Local Abbreviation node_passes := (node_passes splitLines make_guide_lines).

Lemma try_loop_none indent batch : forall seen st,
  (forall u, is_Some (seen !! u) -> node_passes indent st u) ->
  (try_loop indent batch seen st).2 = None ->
  forall u, u ∈ batch -> node_passes indent st u.
Proof.
  induction batch as [|p2 batch IH]; intros seen st Hseen Hrun u Hu.
  { by apply elem_of_nil in Hu. }
  simpl in Hrun. destruct (seen !! p2) as [b|] eqn:Es.
  - apply elem_of_cons in Hu as [->|Hu]; [apply Hseen; by rewrite Es|].
    by apply (IH seen st).
  - destruct (do_remove_brackets indent p2 st) as [r|e] eqn:E; [|done].
    pose proof (do_remove_brackets_store _ _ _ _ _ _ E) as Hr.
    rewrite Hr in Hrun.
    assert (Hp2 : node_passes indent st p2) by (by exists r).
    apply elem_of_cons in Hu as [->|Hu]; [done|].
    apply (IH (<[p2:=true]> seen) st); [|done|done].
    intros v [x Hx]. destruct (decide (p2 = v)) as [<-|Hne]; [done|].
    rewrite lookup_insert_ne in Hx by done. apply Hseen. by exists x.
Qed.

Lemma try_loop_first indent v post e pre : forall seen st,
  (forall u, is_Some (seen !! u) -> node_passes indent st u) ->
  (forall u, u ∈ pre -> node_passes indent st u) ->
  do_remove_brackets indent v st = Raise e ->
  (try_loop indent (pre ++ v :: post) seen st).2 = Some e.
Proof.
  induction pre as [|p2 pre IH]; intros seen st Hseen Hpre Hv; simpl.
  - destruct (seen !! v) as [b|] eqn:Es.
    + destruct (Hseen v) as [r Hr]; [by rewrite Es|]. congruence.
    + by rewrite Hv.
  - destruct (seen !! p2) as [b|] eqn:Es.
    + apply IH; [done| |done]. intros u Hu. apply Hpre.
      by apply list_elem_of_further.
    + destruct (Hpre p2) as [r Hr]; [apply list_elem_of_here|].
      rewrite Hr. pose proof (do_remove_brackets_store _ _ _ _ _ _ Hr) as ->.
      apply IH; [|intros u Hu; apply Hpre; by apply list_elem_of_further|done].
      intros u [x Hx]. destruct (decide (p2 = u)) as [<-|Hne]; [by exists r|].
      rewrite lookup_insert_ne in Hx by done. apply Hseen. by exists x.
Qed.

Lemma try_loop_some indent batch : forall seen st e,
  (forall u, is_Some (seen !! u) -> node_passes indent st u) ->
  (try_loop indent batch seen st).2 = Some e ->
  exists pre v post,
    batch = pre ++ v :: post
    /\ (forall u, u ∈ pre -> node_passes indent st u)
    /\ do_remove_brackets indent v st = Raise e.
Proof.
  induction batch as [|p2 batch IH]; intros seen st e Hseen Hrun; [done|].
  simpl in Hrun. destruct (seen !! p2) as [b|] eqn:Es.
  - destruct (IH _ _ _ Hseen Hrun) as (pre & v & post & -> & Hpre & He).
    exists (p2 :: pre), v, post. split; [done|]. split; [|done].
    intros u [->|Hu]%elem_of_cons; [apply Hseen; by rewrite Es|by apply Hpre].
  - destruct (do_remove_brackets indent p2 st) as [r|e1] eqn:E.
    + pose proof (do_remove_brackets_store _ _ _ _ _ _ E) as Hr.
      rewrite Hr in Hrun.
      assert (Hp2 : node_passes indent st p2) by (by exists r).
      destruct (IH (<[p2:=true]> seen) st e) as (pre & v & post & -> & Hpre & He);
        [|done|].
      { intros u [x Hx]. destruct (decide (p2 = u)) as [<-|Hne]; [done|].
        rewrite lookup_insert_ne in Hx by done. apply Hseen. by exists x. }
      exists (p2 :: pre), v, post. split; [done|]. split; [|done].
      intros u [->|Hu]%elem_of_cons; [done|by apply Hpre].
    + simpl in Hrun. injection Hrun as <-. exists [], p2, batch.
      split; [done|]. split; [|done]. by intros u ?%elem_of_nil.
Qed.

Lemma after_read_result scanned p subtree st :
  (after_read scanned p subtree st).2
  = (try_loop (indent_of scanned) (p :: subtree) ∅ st).2.
Proof.
  unfold IndentedTS.after_read.
  by destruct (try_loop _ _ _ _) as [st1 [e|]].
Qed.

End BatchOrder.

(** X5.  The batch handler reports no error exactly when every node of
    the batch passes, and otherwise reports the error of the first node,
    in the order of [p.self_and_subtree()], whose pipeline raises; a node
    met again (a clone) is not processed twice and cannot change the
    outcome. *)
Theorem after_read_first_failure (splitLines : string -> list string)
    (make_guide_lines : list string -> list string)
    (scanned : option Z) (p : string) (subtree : list string)
    (st : gmap string string) :
  let indent := indent_of scanned in
  let outcome := (after_read splitLines make_guide_lines scanned p subtree st).2 in
  (outcome = None <->
   forall u, u ∈ p :: subtree ->
     node_passes splitLines make_guide_lines indent st u)
  /\ (forall e, outcome = Some e <->
      exists pre v post,
        p :: subtree = pre ++ v :: post
        /\ (forall u, u ∈ pre ->
              node_passes splitLines make_guide_lines indent st u)
        /\ do_remove_brackets splitLines make_guide_lines indent v st = Raise e).
Proof.
  intros indent outcome. unfold outcome. rewrite after_read_result.
  fold indent.
  assert (Hseen : forall u, is_Some ((∅ : gmap string bool) !! u) ->
            node_passes splitLines make_guide_lines indent st u).
  { intros u [x Hx]. by rewrite lookup_empty in Hx. }
  assert (Hsome : forall e,
    (try_loop splitLines make_guide_lines indent (p :: subtree) ∅ st).2 = Some e <->
    exists pre v post,
      p :: subtree = pre ++ v :: post
      /\ (forall u, u ∈ pre -> node_passes splitLines make_guide_lines indent st u)
      /\ do_remove_brackets splitLines make_guide_lines indent v st = Raise e).
  { intros e. split.
    - by apply try_loop_some.
    - intros (pre & v & post & -> & Hpre & He). by apply try_loop_first. }
  split; [|exact Hsome]. split.
  - intros H. by apply (try_loop_none _ _ _ _ _ _ Hseen H).
  - intros Hall.
    destruct (try_loop _ _ _ _ _ _).2 as [e|] eqn:E; [|done].
    destruct (proj1 (Hsome e) eq_refl) as (pre & v & post & Hb & _ & He).
    destruct (Hall v) as [r Hr]; [|congruence].
    rewrite Hb. apply elem_of_app. right. apply list_elem_of_here.
Qed.

(** X6.  When a node of the batch fails, the rollback gives every node
    of the batch the body of the root, and leaves the nodes outside the
    batch as they were. *)
Theorem after_read_rollback (splitLines : string -> list string)
    (make_guide_lines : list string -> list string)
    (scanned : option Z) (p : string) (subtree : list string)
    (st st' : gmap string string) (e : exn) :
  after_read splitLines make_guide_lines scanned p subtree st = (st', Some e) ->
  (forall v, v ∈ p :: subtree -> body st' v = body st p)
  /\ (forall v, v ∉ p :: subtree -> st' !! v = st !! v).
Proof. apply after_read_failure_store. Qed.

Lemma after_read_rollback_witness :
  let st : gmap string string :=
    <["root" := "x" +:+ nl]> (<["c1" := "a {" +:+ nl]> (<["other" := "z"]> ∅)) in
  let r := after_read splitLines_LF guide_lines_plain None "root" ["c1"] st in
  body r.1 "c1" = "x" +:+ nl /\ r.1 !! "other" = Some "z".
Proof.
  intros st r.
  destruct (after_read_rollback splitLines_LF guide_lines_plain None "root" ["c1"]
              st r.1 UnmatchedBrackets) as [H1 H2]; [vm_compute; reflexivity|].
  split.
  - apply (H1 "c1"). apply list_elem_of_further, list_elem_of_here.
  - rewrite (H2 "other"); [reflexivity|].
    intros [H|[H|H%elem_of_nil]%elem_of_cons]%elem_of_cons; done.
Defined.

(** X7.  When the batch handler reports no error, no body of the
    outline has changed. *)
Theorem after_read_success_leaves_bodies (splitLines : string -> list string)
    (make_guide_lines : list string -> list string)
    (scanned : option Z) (p : string) (subtree : list string)
    (st st' : gmap string string) :
  after_read splitLines make_guide_lines scanned p subtree st = (st', None) ->
  st' = st.
Proof. apply after_read_success_store. Qed.

Lemma after_read_success_leaves_bodies_witness :
  let st : gmap string string :=
    <["root" := "if a {" +:+ nl +:+ "}" +:+ nl]> (<["c1" := "y" +:+ nl]> ∅) in
  (after_read splitLines_LF guide_lines_plain None "root" ["c1"] st).1 = st.
Proof.
  intros st.
  apply (after_read_success_leaves_bodies splitLines_LF guide_lines_plain None
           "root" ["c1"] st).
  vm_compute. reflexivity.
Defined.





(** ** The number of lines pass 3 produces *)

Lemma pass3_closes_length info gl lines i ms : forall rl out,
  pass3_closes info gl lines i ms rl = Ok out ->
  length rl <= length out <= length rl + length ms
  /\ (ms <> [] -> S (length rl) <= length out).
Proof.
  induction ms as [|m ms IH]; intros rl out Hrun; simpl in Hrun.
  - injection Hrun as <-. split; [simpl; lia|done].
  - destruct (info !! ("}", i, m.2)) as [[[mc ml] mcol]|]; [|done].
    destruct (negb _); [done|]. destruct (ml =? i).
    + apply bind_ok in Hrun as (this & _ & [= <-]).
      rewrite length_app. simpl. split; lia.
    + apply bind_ok in Hrun as (? & _ & Hrun).
      apply bind_ok in Hrun as (s & _ & Hrun).
      apply bind_ok in Hrun as (rl1 & [_ ->]%setitem_ok & Hrun).
      apply bind_ok in Hrun as (s' & _ & Hrun).
      apply IH in Hrun as [H1 _].
      rewrite length_app, length_insert in H1. simpl in *. split; lia.
Qed.

Lemma pass3_line_length info gl lines i line rl out :
  pass3_line info gl lines i line rl = Ok out ->
  S (length rl) <= length out
  /\ (count "}" line <= 1 -> length out = S (length rl)).
Proof.
  unfold pass3_line. intros Hrun.
  destruct (contains "}" line) eqn:Ec; simpl in Hrun.
  - destruct (Re.semicolon_pat line).
    + apply bind_ok in Hrun as (this & _ & [= <-]).
      rewrite length_app. simpl. split; lia.
    + apply pass3_closes_length in Hrun as [H1 H2].
      unfold Re.finditer, Re.curly_pat2 in *.
      rewrite length_finditer_from in H1.
      apply contains_count in Ec.
      assert (S (length rl) <= length out).
      { apply H2. intros E.
        rewrite <- (length_finditer_from "}" 0), E in Ec. simpl in Ec. lia. }
      split; lia.
  - injection Hrun as <-. rewrite length_app. simpl. split; lia.
Qed.

Lemma enum_for_pass3_length info gl lines rest : forall i rl out,
  enum_for (pass3_line info gl lines) i rest rl = Ok out ->
  length rl + length rest <= length out
  /\ ((forall line, line ∈ rest -> count "}" line <= 1) ->
      length out = length rl + length rest).
Proof.
  induction rest as [|line rest IH]; intros i rl out Hrun; simpl in Hrun.
  - injection Hrun as <-. simpl. split; lia.
  - apply bind_ok in Hrun as (rl1 & Hstep & Hrun).
    apply pass3_line_length in Hstep as [H1 H2].
    apply IH in Hrun as [H3 H4]. simpl. split; [lia|].
    intros Hall. rewrite H4.
    + rewrite H2; [lia|]. apply Hall, list_elem_of_here.
    + intros l Hl. apply Hall. by apply list_elem_of_further.
Qed.

(** X9.  The result of [remove_brackets] never has fewer lines than the
    unit, and it has exactly as many when no guide line holds more than
    one close. *)
Theorem remove_brackets_line_count (guide_lines lines out : list string) :
  remove_brackets guide_lines lines = Ok out ->
  length guide_lines <= length out
  /\ ((forall line, line ∈ guide_lines -> count "}" line <= 1) ->
      length out = length guide_lines).
Proof.
  unfold remove_brackets. intros H.
  apply bind_ok in H as (st & _ & H). apply bind_ok in H as (? & _ & H).
  apply enum_for_pass3_length in H. simpl in H. exact H.
Qed.

Lemma remove_brackets_line_count_witness :
  length ["a" +:+ nl; "b"; nl] = length ["a {"; "b"; "}"].
Proof.
  destruct (remove_brackets_line_count ["a {"; "b"; "}"] ["a {"; "b"; "}"]
              ["a" +:+ nl; "b"; nl]) as [_ H]; [vm_compute; reflexivity|].
  apply H. intros line Hin.
  repeat (apply elem_of_cons in Hin as [->|Hin]; [vm_compute; lia|]).
  by apply elem_of_nil in Hin.
Defined.

(** ** Units that pass 3 leaves alone *)

Lemma pass3_line_untouched info gl lines i g l rl :
  untouched info i g -> lines !! i = Some l ->
  pass3_line info gl lines i g rl = Ok (rl ++ [pick g l]).
Proof.
  intros Hu Hl. unfold pass3_line, pick, getitem.
  destruct (contains "}" g) eqn:Ec; [|done]. simpl.
  destruct (Re.semicolon_pat g) eqn:Es; [by rewrite Hl|].
  destruct Hu as [Hu|[Hu|(m & rest & mcol & Hm & Hi)]]; [congruence..|].
  rewrite Hm. simpl. rewrite Hi. simpl.
  rewrite Nat.eqb_refl. unfold getitem. by rewrite Hl.
Qed.

Lemma enum_for_pass3_untouched info gl lines rest : forall lrest i rl,
  length rest = length lrest ->
  (forall j g, rest !! j = Some g -> untouched info (i + j) g) ->
  (forall j l, lrest !! j = Some l -> lines !! (i + j) = Some l) ->
  enum_for (pass3_line info gl lines) i rest rl
  = Ok (rl ++ zip_with pick rest lrest).
Proof.
  induction rest as [|g rest IH]; intros [|l lrest] i rl Hlen Hu Hl;
    simpl in Hlen; try done.
  - simpl. by rewrite app_nil_r.
  - simpl. rewrite (pass3_line_untouched _ _ _ _ _ l).
    + simpl. rewrite (IH lrest (S i)).
      * by rewrite <- app_assoc.
      * lia.
      * intros j g' Hj. specialize (Hu (S j) g' Hj).
        by replace (S i + j) with (i + S j) by lia.
      * intros j l' Hj. specialize (Hl (S j) l' Hj).
        by replace (S i + j) with (i + S j) by lia.
    + specialize (Hu 0 g eq_refl). by rewrite Nat.add_0_r in Hu.
    + specialize (Hl 0 l eq_refl). by rewrite Nat.add_0_r in Hl.
Qed.

Lemma zip_with_pick_same ls : zip_with pick ls ls = ls.
Proof.
  induction ls as [|l ls IH]; simpl; [done|]. rewrite IH. f_equal.
  unfold pick. by destruct (contains "}" l).
Qed.

(** X10.  A unit whose brackets are balanced and in which every line
    with a close either has a close followed by a semicolon or has its
    first close paired with an open of the same line is not rewritten:
    the result takes the real line where the guide line has a close and
    the guide line elsewhere, so with guide lines equal to the lines the
    result is the unit itself. *)
Theorem remove_brackets_untouched (guide_lines lines : list string)
    (st : pass1_state) :
  length lines = length guide_lines ->
  pass1 guide_lines = Ok st ->
  (forall i g, guide_lines !! i = Some g -> untouched (info st) i g) ->
  remove_brackets guide_lines lines = Ok (zip_with pick guide_lines lines)
  /\ (lines = guide_lines -> remove_brackets guide_lines lines = Ok lines).
Proof.
  intros Hlen Hok Hu.
  assert (H : remove_brackets guide_lines lines
              = Ok (zip_with pick guide_lines lines)).
  { unfold remove_brackets. rewrite Hok. simpl.
    destruct (pass2_no_matching_info_unreachable_aux _ _ Hok) as [_ ->]. simpl.
    unfold pass3.
    by rewrite (enum_for_pass3_untouched _ _ _ _ lines 0 []). }
  split; [exact H|]. intros ->. by rewrite H, zip_with_pick_same.
Qed.

Lemma remove_brackets_untouched_witness :
  remove_brackets ["if (a) { b }"; "x = {"; "};"] ["if (a) { b }"; "x = {"; "};"]
  = Ok ["if (a) { b }"; "x = {"; "};"].
Proof.
  destruct (remove_brackets_untouched
              ["if (a) { b }"; "x = {"; "};"] ["if (a) { b }"; "x = {"; "};"]
              (Pass1State []
                 (<[("}", 2, 0) := ("{", 1, 4)]> (<[("{", 1, 4) := ("}", 2, 0)]>
                 (<[("}", 0, 11) := ("{", 0, 7)]> (<[("{", 0, 7) := ("}", 0, 11)]> ∅))))
                 0)) as [_ H]; [reflexivity|vm_compute; reflexivity| |by apply H].
  intros [|[|[|i]]] g Hg; try done; injection Hg as <-.
  - right; right. exists ("}", 11), [], 7. split; [reflexivity|].
    vm_compute. reflexivity.
  - left. reflexivity.
  - right; left. reflexivity.
Defined.

(** ** A substitution keeps the content of the line *)

Lemma content_chars_of_app a b :
  content_chars_of (a +:+ b) = content_chars_of a ++ content_chars_of b.
Proof.
  induction a as [|c a IH]; simpl; [done|].
  destruct (isspace c || Re.curly_pat c); simpl; by rewrite IH.
Qed.

Lemma rstrip_empty_content x : rstrip x = "" -> content_chars_of x = [].
Proof.
  induction x as [|c r IH]; simpl; [done|].
  destruct (isspace c) eqn:Ec; simpl; [|done].
  destruct (rstrip r); simpl; [intros _; by apply IH|done].
Qed.

Lemma content_chars_of_rstrip x :
  content_chars_of (rstrip x) = content_chars_of x.
Proof.
  induction x as [|c r IH]; simpl; [done|].
  destruct (isspace c && negb (truthy (rstrip r))) eqn:E.
  - apply andb_true_iff in E as [Ec Er]. rewrite Ec. simpl.
    symmetry. apply rstrip_empty_content. by destruct (rstrip r).
  - simpl. by rewrite IH.
Qed.

Lemma content_chars_of_lstrip x :
  content_chars_of (lstrip x) = content_chars_of x.
Proof.
  induction x as [|c r IH]; simpl; [done|].
  destruct (isspace c) eqn:Ec; simpl; [done|]. by rewrite Ec.
Qed.

Lemma content_chars_of_tidy x : content_chars_of (tidy x) = content_chars_of x.
Proof.
  unfold tidy. destruct (truthy (strip x)) eqn:E.
  - rewrite content_chars_of_app, content_chars_of_rstrip. simpl.
    by rewrite app_nil_r.
  - unfold strip in E.
    rewrite <- (content_chars_of_lstrip x). symmetry.
    apply rstrip_empty_content. by destruct (rstrip (lstrip x)).
Qed.

Lemma slice_at c : forall s x,
  String.get c s = Some x ->
  s = slice_to c s +:+ String x (slice_from (c + 1) s).
Proof.
  induction c as [|c IH]; intros [|d r] x H; simpl in *; try done.
  - by injection H as ->.
  - f_equal. by apply IH.
Qed.

(** X11.  Blanking a bracket and tidying the line keep the content of
    the line: when the character at the column is a curly bracket, the
    characters of the rewritten line that are neither white space nor
    curly brackets are those of the line, in the same order; and tidying
    alone never changes them. *)
Theorem substitution_keeps_content (column : nat) (s : string) (x : ascii) :
  String.get column s = Some x -> Re.curly_pat x = true ->
  content_chars_of (tidy (blank_at column s)) = content_chars_of s
  /\ (forall y, content_chars_of (tidy y) = content_chars_of y).
Proof.
  intros Hget Hx. split; [|apply content_chars_of_tidy].
  rewrite content_chars_of_tidy. unfold blank_at.
  rewrite (slice_at _ _ _ Hget) at 3.
  rewrite !content_chars_of_app.
  change (" " +:+ slice_from (column + 1) s)
    with (String " " (slice_from (column + 1) s)).
  cbn [content_chars_of]. rewrite Hx, orb_true_r. reflexivity.
Qed.

Lemma substitution_keeps_content_witness :
  content_chars_of (tidy (blank_at 8 "if cond {")) = content_chars_of "if cond {".
Proof.
  apply (substitution_keeps_content 8 "if cond {" "{"); reflexivity.
Defined.

(** ** The blanking of a column *)

Lemma blank_at_nil column : blank_at column "" = " ".
Proof. unfold blank_at. by destruct column. Qed.

Lemma blank_at_zero d r : blank_at 0 (String d r) = String " " r.
Proof. reflexivity. Qed.

Lemma blank_at_succ column d r :
  blank_at (S column) (String d r) = String d (blank_at column r).
Proof. reflexivity. Qed.

(** X12.  Blanking a column inside the line is a same-width
    replacement: the length is kept, the column holds a blank and every
    other column holds what it held.  A column at or beyond the end of
    the line (a real line shorter than its guide line) is not an error:
    a blank is appended. *)
Theorem blank_at_columns (column : nat) (s : string) :
  (column < String.length s ->
   String.length (blank_at column s) = String.length s
   /\ String.get column (blank_at column s) = Some " "%char
   /\ (forall k, k <> column ->
         String.get k (blank_at column s) = String.get k s))
  /\ (String.length s <= column -> blank_at column s = s +:+ " ").
Proof.
  revert s. induction column as [|c IH]; intros [|d r].
  - split; [simpl; lia|]. intros _. apply blank_at_nil.
  - rewrite blank_at_zero. split; [|simpl; lia]. intros _.
    split; [done|]. split; [done|]. by intros [|k].
  - split; [simpl; lia|]. intros _. apply blank_at_nil.
  - rewrite blank_at_succ. destruct (IH r) as [H1 H2]. split.
    + intros Hlt. simpl in Hlt.
      destruct H1 as (L & G & O); [lia|]. simpl.
      split; [by rewrite L|]. split; [done|].
      intros [|k] Hk; [done|]. apply O. lia.
    + intros Hle. simpl in Hle. simpl. rewrite H2 by lia. done.
Qed.

Lemma blank_at_columns_witness :
  String.length (blank_at 8 "if cond {") = String.length "if cond {"
  /\ blank_at 3 "ab" = "ab ".
Proof.
  destruct (blank_at_columns 8 "if cond {") as [H _].
  destruct (blank_at_columns 3 "ab") as [_ H'].
  split; [apply H; simpl; lia|apply H'; simpl; lia].
Defined.

(** ** The erasure of the bracket check is idempotent *)

Lemma sub_matched_from_fixed s :
  has_pair s = false -> Re.sub_matched_from 0 s = s.
Proof.
  induction s as [|c r IH]; [done|].
  cbn [has_pair Re.sub_matched_from Re.matched_bracket_pat].
  intros [H1 H2]%orb_false_iff. rewrite (IH H2).
  destruct (Ascii.eqb c "{"); [|done]. simpl in H1.
  apply bool_decide_eq_false in H1.
  destruct (Re.lazy_to_close r) as [k|]; [|done].
  destruct H1. by exists k.
Qed.

(** X13.  The erasure of same-line pairs changes only lines that hold
    one: a line without a same-line pair is returned as it is, and
    erasing twice is erasing once. *)
Theorem sub_matched_idempotent (line0 : string) :
  (~ same_line_pair line0 -> Re.sub_matched line0 = line0)
  /\ Re.sub_matched (Re.sub_matched line0) = Re.sub_matched line0.
Proof.
  split.
  - intros H. apply sub_matched_from_fixed.
    destruct (has_pair line0) eqn:E; [|done].
    by apply has_pair_spec in E.
  - apply sub_matched_from_fixed.
    apply (sub_matched_no_pair_fuel (String.length line0)). lia.
Qed.

(** ** The pattern [semicolon_pat] in words *)

Lemma sc_tail_spec s :
  Re.sc_tail s = true <->
  exists ws rest, s = ws +:+ String ";" rest /\ str_forall isspace ws = true.
Proof.
  split.
  - induction s as [|c r IH]; simpl; [done|].
    intros [Hc|[Hc Hr]%andb_true_iff]%orb_true_iff.
    + apply Ascii.eqb_eq in Hc. subst c. by exists "", r.
    + destruct (IH Hr) as (ws & rest & -> & Hw).
      exists (String c ws), rest. split; [done|]. simpl. by rewrite Hc, Hw.
  - intros (ws & rest & -> & Hw). induction ws as [|c w IH]; simpl; [done|].
    simpl in Hw. apply andb_true_iff in Hw as [Hc Hw].
    rewrite Hc, (IH Hw). simpl. apply orb_true_r.
Qed.

(** X14.  The guard of pass 3 holds for a line exactly when the line
    has a close followed by a semicolon with nothing but white space
    between them; what comes before the close and after the semicolon
    is free. *)
Theorem semicolon_pat_spec (line : string) :
  Re.semicolon_pat line = true <->
  exists before ws after,
    line = before +:+ "}" +:+ ws +:+ ";" +:+ after
    /\ str_forall isspace ws = true.
Proof.
  split.
  - induction line as [|c r IH]; simpl; [done|].
    intros [[Hc Hr]%andb_true_iff|H]%orb_true_iff.
    + apply Ascii.eqb_eq in Hc. subst c.
      apply sc_tail_spec in Hr as (ws & rest & -> & Hw).
      by exists "", ws, rest.
    + destruct (IH H) as (b & ws & a & -> & Hw). by exists (String c b), ws, a.
  - intros (b & ws & a & -> & Hw).
    change (b +:+ "}" +:+ ws +:+ ";" +:+ a)
      with (b +:+ String "}" (ws +:+ String ";" a)).
    induction b as [|c b IH]; simpl.
    + replace (Re.sc_tail (ws +:+ String ";" a)) with true; [done|].
      symmetry. apply sc_tail_spec. by exists ws, a.
    + rewrite IH. apply orb_true_r.
Qed.

(** ** The depths the indentation check ends with *)

Lemma check_indentation_line_next indent ws_char i line st st' :
  check_indentation_line indent ws_char i line st = Ok st' ->
  curlies st' = (curlies st + Z.of_nat (count "{" line)
                 - Z.of_nat (count "}" line))%Z
  /\ parens st' = (parens st + Z.of_nat (count "(" line)
                   - Z.of_nat (count ")" line))%Z.
Proof.
  unfold check_indentation_line. intros H.
  apply bind_ok in H as (w & _ & H). injection H as <-. simpl.
  unfold Re.curly_pat1, Re.curly_pat2, Re.paren_pat1, Re.paren_pat2.
  rewrite !for_matches_count. split; lia.
Qed.

Lemma enum_for_indentation_depths indent ws_char gl : forall i st st',
  enum_for (check_indentation_line indent ws_char) i gl st = Ok st' ->
  curlies st' = (curlies st + Z.of_nat (total_count "{" gl)
                 - Z.of_nat (total_count "}" gl))%Z
  /\ parens st' = (parens st + Z.of_nat (total_count "(" gl)
                   - Z.of_nat (total_count ")" gl))%Z.
Proof.
  induction gl as [|l gl IH]; intros i st st' H; simpl in H.
  - injection H as <-. simpl. split; lia.
  - apply bind_ok in H as (st1 & H1 & H).
    apply check_indentation_line_next in H1 as [C1 P1].
    apply IH in H as [C2 P2]. simpl. split; lia.
Qed.

Lemma count_tokens_app c a b :
  count_tokens c (a ++ b) = count_tokens c a + count_tokens c b.
Proof. induction a as [|t a IH]; simpl; [done|]. rewrite IH. lia. Qed.

Lemma count_line_tokens (c : ascii) i s :
  Re.curly_pat c = true -> forall k,
  count_tokens (String c EmptyString)
    (map (fun m : string * nat => (m.1, i, m.2)) (Re.finditer_from Re.curly_pat k s))
  = count c s.
Proof.
  intros Hc. induction s as [|d r IH]; intros k; simpl; [done|].
  destruct (Re.curly_pat d) eqn:Ed; simpl.
  - rewrite IH. f_equal. by destruct (Ascii.eqb d c).
  - rewrite IH. destruct (Ascii.eqb_spec d c) as [->|_]; [congruence|done].
Qed.

Lemma count_tokens_total (c : ascii) gl :
  Re.curly_pat c = true -> forall i,
  count_tokens (String c EmptyString) (tokens_from i gl) = total_count c gl.
Proof.
  intros Hc. induction gl as [|l gl IH]; intros i; simpl; [done|].
  rewrite count_tokens_app, IH. f_equal. by apply count_line_tokens.
Qed.

Lemma pass1_ok_counts gl st :
  pass1 gl = Ok st -> total_count "{" gl = total_count "}" gl.
Proof.
  intros Hok. destruct (pass1_ok_inv _ _ Hok) as [_ Hst].
  rewrite pass1_scan in Hok. apply bind_ok in Hok as (st1 & Hs & Ht).
  destruct (negb _); [done|]. injection Ht as ->.
  pose proof (for_in_pass1_depth (tokens gl) (Pass1State [] ∅ 0)) as H.
  unfold scan in Hs. rewrite Hs in H.
  destruct H as (_ & H & _).
  { by intros t ?%elem_of_nil. } { apply tokens_kind. }
  rewrite Hst in H. simpl in H. unfold tokens in H.
  rewrite (count_tokens_total "{" gl eq_refl 0) in H.
  rewrite (count_tokens_total "}" gl eq_refl 0) in H. lia.
Qed.

(** X15.  When the indentation check accepts a unit, the curly depth it
    ends with is the number of opens minus the number of closes of the
    unit, and the parenthesis depth likewise.  The curly depth is zero
    whenever the matching pass accepts the unit, so a unit the check
    leaves at a nonzero curly depth is always rejected by
    [remove_brackets]. *)
Theorem check_indentation_depths (guide_lines : list string) (indent : Z)
    (ist : indent_state) :
  check_indentation guide_lines indent = Ok ist ->
  curlies ist = (Z.of_nat (total_count "{" guide_lines)
                 - Z.of_nat (total_count "}" guide_lines))%Z
  /\ parens ist = (Z.of_nat (total_count "(" guide_lines)
                   - Z.of_nat (total_count ")" guide_lines))%Z
  /\ ((exists st, pass1 guide_lines = Ok st) -> curlies ist = 0%Z)
  /\ (curlies ist <> 0%Z ->
      forall lines, exists e, remove_brackets guide_lines lines = Raise e).
Proof.
  unfold check_indentation. destruct (negb _); [done|]. intros H.
  apply enum_for_indentation_depths in H as [C P]. simpl in C, P.
  assert (Hz : (exists st, pass1 guide_lines = Ok st) -> curlies ist = 0%Z).
  { intros [st Hok]. apply pass1_ok_counts in Hok. lia. }
  split; [lia|]. split; [lia|]. split; [exact Hz|].
  intros Hne lines. unfold remove_brackets.
  destruct (pass1 guide_lines) as [st|e] eqn:E; [|by exists e].
  destruct Hne. apply Hz. by exists st.
Qed.

Lemma check_indentation_depths_witness :
  exists e, remove_brackets ["f(a {"; "    b"] ["f(a {"; "    b"] = Raise e.
Proof.
  destruct (check_indentation_depths ["f(a {"; "    b"] (-4)
              (IndentState 1 1 [])) as (_ & _ & _ & H);
    [vm_compute; reflexivity|].
  apply H. discriminate.
Defined.

(** ** The event handlers *)

(** X16.  A read event is passed to [after_read] exactly when a create
    event was seen for the same commander: with a registry built by
    create events, [onAfterRead] calls the controller when the commander
    of the event is among the commanders of those events, and otherwise
    fails on the missing controller; it does not trace and return as it
    does for a missing commander or position.  Create events for other
    commanders, or without a commander, do not change this. *)
Theorem onAfterRead_dispatch (splitLines : string -> list string)
    (make_guide_lines : list string -> list string)
    (created : list (option string)) (c : string)
    (p : string * list string) (scanned : option Z)
    (st : gmap string string) :
  let gControllers := foldr onCreate ∅ created in
  (Some c ∈ created ->
   onAfterRead splitLines make_guide_lines (Some c) (Some p) scanned gControllers st
   = Called (after_read splitLines make_guide_lines scanned p.1 p.2 st))
  /\ (Some c ∉ created ->
      onAfterRead splitLines make_guide_lines (Some c) (Some p) scanned gControllers st
      = NoController)
  /\ onAfterRead splitLines make_guide_lines None (Some p) scanned gControllers st
     = Traced
  /\ onAfterRead splitLines make_guide_lines (Some c) None scanned gControllers st
     = Traced.
Proof.
  intros gControllers.
  assert (Hreg : forall h, is_Some (gControllers !! h) <-> Some h ∈ created).
  { unfold gControllers. clear. induction created as [|[h'|] created IH];
      intros h; simpl.
    - rewrite lookup_empty. split; [by intros [? ?]|by intros ?%elem_of_nil].
    - rewrite elem_of_cons. destruct (decide (h' = h)) as [->|Hne].
      + rewrite lookup_insert_eq. split; [by left|by eexists].
      + rewrite lookup_insert_ne by done. rewrite IH. split; [by right|].
        intros [[= ->]|H]; done.
    - rewrite elem_of_cons, IH. split; [by right|]. by intros [?|?]. }
  destruct p as [root subtree]. unfold onAfterRead. simpl.
  split; [|split; [|split]]; try done.
  - intros Hin. apply Hreg in Hin as [x ->]. done.
  - intros Hnin. destruct (gControllers !! c) as [x|] eqn:E; [|done].
    destruct Hnin. apply Hreg. by exists x.
Qed.

Lemma onAfterRead_dispatch_witness :
  onAfterRead splitLines_LF guide_lines_plain (Some "c1") (Some ("root", []))
    None (foldr onCreate ∅ [Some "c2"]) ∅
  = NoController.
Proof.
  destruct (onAfterRead_dispatch splitLines_LF guide_lines_plain [Some "c2"]
              "c1" ("root", []) None ∅) as (_ & H & _).
  apply H. intros [[=]|H']%elem_of_cons. by apply elem_of_nil in H'.
Defined.
